(** * neuromaps.datasets.annotations: matching, grouping and fetching annotations

    A shallow embedding of [src/neuromaps/datasets/annotations.py] and the
    properties of its catalog matcher ([_match_annot]), its grouping engine
    ([_groupby_match]), [fetch_annotation] and [get_annotations_desc].

    Conventions of the embedding:
    - a Python [str] is a Rocq [string]; its characters are the code points
      below 256 (file names of the catalog are ASCII);
    - a dynamically typed Python value that the code inspects ([None], a
      [str], a list of [str]) is a [pyval];
    - a [dict] with string keys read through [.get] is a [gmap string pyval];
      the insertion-ordered [defaultdict(list)] of the grouping engine is an
      association list, because its order is observable;
    - a raised exception is the [Raise] case of [result];
    - the functions of [neuromaps.datasets.utils] and nilearn's [_fetch_file]
      are not among the sources: they are modelled from the spec and from the
      docstring of [fetch_annotation], each marked as such, over a [World]
      that records every call leaving the module. *)

From Stdlib Require Import Ascii String List Bool Arith ZArith Lia.
From stdpp Require Import base gmap strings list sorting.
Import ListNotations.
Open Scope string_scope.
Open Scope list_scope.

Set Default Proof Using "Type".

(** ** Exceptions and results *)

Inductive exn : Type :=
| AttributeError   (* [None.groups()] *)
| ValueError       (* raised by [fetch_annotation] on an empty query *)
| TypeError        (* [raise None], a non-[str] path segment *)
| KeyError         (* [dset['fname']] on a record without the key *)
| IndexError       (* [v[0]] on an empty list *)
| FileNotFoundError (* [shutil.move] of a file that is not there *)
| NetworkError     (* [_fetch_file]: transport failure *)
| IntegrityError.  (* [_fetch_file]: checksum mismatch *)

Inductive result (A : Type) : Type :=
| Ok (a : A)
| Raise (e : exn).
Arguments Ok {A} a.
Arguments Raise {A} e.

Definition rbind {A B} (r : result A) (f : A -> result B) : result B :=
  match r with
  | Ok a => f a
  | Raise e => Raise e
  end.

(** ** Regular expressions, as far as [MATCH] needs them

    [re] is a backtracking matcher: alternatives are tried left to right,
    repetitions are greedy and give characters back one at a time, and
    [search] tries every start position from the left.  The embedding keeps
    exactly that order, because the captured groups depend on it. *)

Module Re.

Inductive regex : Type :=
| Lit (s : string)        (* literal text *)
| Rep (cls : ascii -> bool) (lo : nat) (hi : option nat)
                          (* greedy [c{lo,hi}] of a character class;
                             [hi = None] is unbounded *)
| Group (r : regex)       (* capturing group *)
| Alt (r1 r2 : regex)     (* [r1|r2] *)
| Cat (r1 r2 : regex).    (* concatenation *)

(** The part of [s] consumed when the rest is [rest]. *)
Fixpoint take (n : nat) (s : string) : string :=
  match n, s with
  | S n', String c s' => String c (take n' s')
  | _, _ => EmptyString
  end.

Definition consumed (s rest : string) : string :=
  take (String.length s - String.length rest) s.

(** [lit p s k]: match the literal [p] at the start of [s]. *)
Fixpoint lit {A} (p s : string) (k : string -> option A) : option A :=
  match p with
  | EmptyString => k s
  | String c p' =>
      match s with
      | String d s' => if Ascii.eqb c d then lit p' s' k else None
      | EmptyString => None
      end
  end.

Definition may_take (hi : option nat) : bool :=
  match hi with
  | Some 0 => false
  | _ => true
  end.

Definition dec (hi : option nat) : option nat :=
  match hi with
  | Some n => Some (Nat.pred n)
  | None => None
  end.

(** [rep cls lo hi s k]: greedy repetition; takes as many characters of the
    class as allowed, then backs off one character at a time. *)
Fixpoint rep {A} (cls : ascii -> bool) (lo : nat) (hi : option nat)
    (s : string) (k : string -> option A) : option A :=
  let stop := if Nat.eqb lo 0 then k s else None in
  match s with
  | String c s' =>
      if cls c && may_take hi then
        match rep cls (Nat.pred lo) (dec hi) s' k with
        | Some r => Some r
        | None => stop
        end
      else stop
  | EmptyString => stop
  end.

(** [bt r s caps k]: match [r] at the start of [s]; [caps] are the groups
    closed so far, [k] is the continuation that matches the rest of the
    pattern. *)
Fixpoint bt (r : regex) (s : string) (caps : list string)
    (k : string -> list string -> option (list string)) : option (list string) :=
  match r with
  | Lit p => lit p s (fun s' => k s' caps)
  | Rep cls lo hi => rep cls lo hi s (fun s' => k s' caps)
  | Group r1 => bt r1 s caps (fun s' caps' => k s' (caps' ++ [consumed s s']))
  | Alt r1 r2 =>
      match bt r1 s caps k with
      | Some res => Some res
      | None => bt r2 s caps k
      end
  | Cat r1 r2 => bt r1 s caps (fun s' caps' => bt r2 s' caps' k)
  end.

(** [pattern.match(s)]: the groups of a match anchored at the start. *)
Definition match_at (r : regex) (s : string) : option (list string) :=
  bt r s [] (fun _ caps => Some caps).

(** [pattern.search(s)]; [None] is Python's [None], [Some gs] is a match
    object whose [.groups()] is [gs]. *)
Fixpoint search (r : regex) (s : string) : option (list string) :=
  match match_at r s with
  | Some gs => Some gs
  | None =>
      match s with
      | String _ s' => search r s'
      | EmptyString => None
      end
  end.

(** Every character of [w] is in the class. *)
Fixpoint all_in (cls : ascii -> bool) (w : string) : bool :=
  match w with
  | EmptyString => true
  | String c w' => cls c && all_in cls w'
  end.

(** What it means for a string to match a pattern: [matches r w gs] when the
    whole of [w] matches [r] and the groups closed on the way are [gs]. *)
Inductive matches : regex -> string -> list string -> Prop :=
| MLit p : matches (Lit p) p []
| MRep cls lo hi w :
    lo <= String.length w ->
    (forall n, hi = Some n -> String.length w <= n) ->
    all_in cls w = true ->
    matches (Rep cls lo hi) w []
| MGroup r w gs :
    matches r w gs -> matches (Group r) w (gs ++ [w])
| MAltL r1 r2 w gs :
    matches r1 w gs -> matches (Alt r1 r2) w gs
| MAltR r1 r2 w gs :
    matches r2 w gs -> matches (Alt r1 r2) w gs
| MCat r1 r2 w1 w2 gs1 gs2 :
    matches r1 w1 gs1 -> matches r2 w2 gs2 ->
    matches (Cat r1 r2) (String.append w1 w2) (gs1 ++ gs2).

(** Character classes of the pattern. *)

(** [\s] on code points below 256 ([str.isspace]). *)
Definition is_space (c : ascii) : bool :=
  let n := nat_of_ascii c in
  (Nat.leb 9 n && Nat.leb n 13) || (Nat.leb 28 n && Nat.leb n 32)
  || Nat.eqb n 133 || Nat.eqb n 160.

(** [\S] *)
Definition non_space (c : ascii) : bool := negb (is_space c).

(** [\d] on code points below 256 *)
Definition digit (c : ascii) : bool :=
  let n := nat_of_ascii c in Nat.leb 48 n && Nat.leb n 57.

(** The class [[k|m]]: inside brackets the bar is an ordinary character. *)
Definition k_bar_m (c : ascii) : bool :=
  Ascii.eqb c "k" || Ascii.eqb c "|" || Ascii.eqb c "m".

End Re.

(** [MATCH = re.compile(
      r'source-(\S+)_desc-(\S+)_space-(\S+)_(?:den|res)-(\d+[k|m]{1,2})_')] *)
Definition MATCH : Re.regex :=
  Re.Cat (Re.Lit "source-")
  (Re.Cat (Re.Group (Re.Rep Re.non_space 1 None))
  (Re.Cat (Re.Lit "_desc-")
  (Re.Cat (Re.Group (Re.Rep Re.non_space 1 None))
  (Re.Cat (Re.Lit "_space-")
  (Re.Cat (Re.Group (Re.Rep Re.non_space 1 None))
  (Re.Cat (Re.Lit "_")
  (Re.Cat (Re.Alt (Re.Lit "den") (Re.Lit "res"))
  (Re.Cat (Re.Lit "-")
  (Re.Cat (Re.Group (Re.Cat (Re.Rep Re.digit 1 None)
                            (Re.Rep Re.k_bar_m 1 (Some 2))))
          (Re.Lit "_")))))))))).

(** [fn] holds, somewhere, a stretch that matches [MATCH] with groups [gs]. *)
Definition holds_match (fn : string) (gs : list string) : Prop :=
  exists pre w post,
    fn = String.append pre (String.append w post) /\ Re.matches MATCH w gs.

(** ** Python values and dictionaries *)

Inductive pyval : Type :=
| PyNone
| PyStr (s : string)
| PyList (l : list string).

#[global] Instance pyval_eq_dec : EqDecision pyval.
Proof. solve_decision. Defined.

(** A [dict] with string keys. *)
Abbreviation dict := (gmap string pyval).

(** [d.get(key)]: [None] when the key is missing. *)
Definition get (d : dict) (key : string) : pyval := default PyNone (d !! key).

(** [x is None] *)
Definition is_None (v : pyval) : bool :=
  match v with
  | PyNone => true
  | _ => false
  end.

(** Truth value of a Python object: [None], [''] and [[]] are false. *)
Definition truthy (v : pyval) : bool :=
  match v with
  | PyNone => false
  | PyStr s => negb (String.eqb s "")
  | PyList l => negb (Nat.eqb (List.length l) 0)
  end.

(** [a or b] *)
Definition py_or (a b : pyval) : pyval := if truthy a then a else b.

(** [a == b] *)
Definition py_eq (a b : pyval) : bool := bool_decide (a = b).

(** [f in c] for two strings: [f] occurs in [c] as a substring. *)
Fixpoint is_infix (f c : string) : bool :=
  String.prefix f c ||
  match c with
  | String _ c' => is_infix f c'
  | EmptyString => false
  end.

(** [f in l] for a list of strings. *)
Definition mem (f : string) (l : list string) : bool := existsb (String.eqb f) l.

(** [f in comp] with [f] a string.  Python decides by the type of [comp]:
    substring test on a [str], membership on a list.  [comp] is never [None]
    where the code evaluates this. *)
Definition py_in (f : string) (comp : pyval) : bool :=
  match comp with
  | PyStr c => is_infix f c
  | PyList l => mem f l
  | PyNone => false
  end.

(** [x in denres] where [denres] is a list of strings and [x] any value. *)
Definition in_strs (x : pyval) (l : list string) : bool :=
  match x with
  | PyStr s => mem s l
  | _ => false
  end.

(** ** The predicate matcher: [_match_annot] *)

(** The tuple the inner loop runs over. *)
Definition match_keys : list string :=
  ["source"; "desc"; "space"; "hemi"; "tags"; "format"].

(** [tags] should always be a list: a bare string becomes [[tags]]. *)
Definition normalize_tags (kwargs : dict) : dict :=
  match get kwargs "tags" with
  | PyStr tags => <["tags" := PyList [tags]]> kwargs
  | _ => kwargs
  end.

(** One turn of
    [for vals in (kwargs.get('den'), kwargs.get('res'))]. *)
Definition denres_extend (denres : list string) (vals : pyval) : list string :=
  match vals with
  | PyStr s => denres ++ [s]
  | PyList l => denres ++ l
  | PyNone => denres
  end.

Definition denres_of (kwargs : dict) : list string :=
  fold_left denres_extend [get kwargs "den"; get kwargs "res"] [].

(** One turn of [for key in ('source', ..., 'format')]: the new value of
    [match]. *)
Definition check_key (dset kwargs : dict) (mtch : bool) (key : string) : bool :=
  let comp := get dset key in
  let value := get kwargs key in
  match value with
  | PyNone => mtch
  | PyStr v =>
      if is_None comp then false
      else if negb (String.eqb v "all") then mtch && py_eq comp value
      else mtch
  | PyList vs =>
      if is_None comp then false
      else
        let func := if String.eqb key "tags" then @forallb string else @existsb string in
        mtch && func (fun f => py_in f comp) vs
  end.

(** The body of [for dset in info]: is [dset] appended to [out]? *)
Definition dset_matches (kwargs : dict) (denres : list string) (dset : dict) : bool :=
  let mtch := fold_left (check_key dset kwargs) match_keys true in
  if Nat.ltb 0 (List.length denres)
  then mtch && in_strs (py_or (get dset "den") (get dset "res")) denres
  else mtch.

Definition _match_annot (info : list dict) (kwargs : dict) : list dict :=
  let kwargs := normalize_tags kwargs in
  let denres := denres_of kwargs in
  List.filter (dset_matches kwargs denres) info.

(** ** The grouping engine: [_groupby_match] *)

(** [m.groups()], the tuple of captured strings, is the key of a bucket. *)
Abbreviation key := (list string).

(** The [defaultdict(list)] called [out], in insertion order. *)
Abbreviation buckets := (list (key * list string)).

(** [out[k].append(fn)]: a missing key is inserted last with an empty list
    first. *)
Fixpoint bucket_append (out : buckets) (k : key) (fn : string) : buckets :=
  match out with
  | [] => [(k, [fn])]
  | (k', v) :: out' =>
      if bool_decide (k = k') then (k', v ++ [fn]) :: out'
      else (k', v) :: bucket_append out' k fn
  end.

(** [for fn in fnames: out[MATCH.search(fn).groups()].append(fn)];
    [.groups()] on [None] raises [AttributeError]. *)
Fixpoint group_loop (fnames : list string) (out : buckets) : result buckets :=
  match fnames with
  | [] => Ok out
  | fn :: rest =>
      match Re.search MATCH fn with
      | None => Raise AttributeError
      | Some groups => group_loop rest (bucket_append out groups fn)
      end
  end.

(** A value of the returned dictionary: one file name or a list of them. *)
Inductive gval : Type :=
| One (fn : string)
| Many (fns : list string).

(** [v if len(v) > 1 else v[0]] *)
Definition collapse (v : list string) : result gval :=
  if Nat.ltb 1 (List.length v) then Ok (Many v)
  else match v with
       | x :: _ => Ok (One x)
       | [] => Raise IndexError
       end.

(** [{k: v if len(v) > 1 else v[0] for k, v in out.items()}] *)
Fixpoint collapse_all (out : buckets) : result (list (key * gval)) :=
  match out with
  | [] => Ok []
  | (k, v) :: out' =>
      rbind (collapse v) (fun v' =>
      rbind (collapse_all out') (fun rest => Ok ((k, v') :: rest)))
  end.

(** What [_groupby_match] returns: the dictionary, or one of its values. *)
Inductive grouped : Type :=
| Mapping (d : list (key * gval))
| Direct (v : gval).

Definition _groupby_match (fnames : list string) (return_single : bool)
  : result grouped :=
  rbind (group_loop fnames []) (fun out =>
  rbind (collapse_all out) (fun out =>
  if return_single && Nat.eqb (List.length out) 1 then
    match out with
    | (_, v) :: _ => Ok (Direct v)        (* [list(out.values())[0]] *)
    | [] => Raise IndexError
    end
  else Ok (Mapping out))).

(** ** The outside world of [fetch_annotation]

    [fetch_annotation] reads the process environment and the packaged
    catalog, looks at the local file system, downloads and moves files,
    prints and warns.  The world is threaded explicitly; every call that
    leaves the module is recorded in [log], oldest first. *)

Inductive warning : Type :=
| BestInFsaverage                       (* the beliveau2017 / norgaard2021 caveat *)
| NotAvailable (annots : list key).     (* "Annotations ... are not available." *)

Inductive event : Type :=
| CallGetToken (token : pyval)
| CallGetDataDir (data_dir : pyval)
| CallGetDatasetInfo (name : string) (return_restricted : bool)
| CallGetSession (token : pyval)
| CallPrint (n_datasets : nat)
| CallExists (path : string)
| CallFetchFile (url : pyval) (dir : string) (md5sum : pyval) (session : pyval)
| CallMove (src dst : string)
| CallWarn (w : warning)
| CallOpenInfo.

(** An entry of the packaged catalog: a record and whether it is marked
    restricted. *)
Record entry : Type := mkEntry {
  restricted : bool;
  record : dict
}.

(** A row of the side-catalog of descriptions ([info.json]). *)
Record info_row : Type := mkRow {
  annot_source : pyval;
  annot_desc : pyval;
  annot_space : pyval;
  annot_den : pyval;
  annot_res : pyval;
  full_desc : pyval;
  refs_primary : pyval;
  refs_secondary : pyval;
  demographics_N : pyval;
  demographics_age : pyval
}.

Record World : Type := mkWorld {
  environ : gmap string string;          (* [os.environ] *)
  catalog : gmap string (list entry);    (* the packaged catalog, by category *)
  info_json : list info_row;             (* [info.json]["annotations"] *)
  remote : string -> pyval -> option string;
                                         (* what a download of a URL under a session
                                            delivers: the md5 of the payload, or
                                            nothing when the transport fails *)
  files : gset string;                   (* the paths that exist locally *)
  log : list event
}.

Definition with_log (w : World) (l : list event) : World :=
  mkWorld (environ w) (catalog w) (info_json w) (remote w) (files w) l.

Definition with_files (w : World) (fs : gset string) : World :=
  mkWorld (environ w) (catalog w) (info_json w) (remote w) fs (log w).

(** Computations in the world that may raise. *)
Definition M (A : Type) : Type := World -> result A * World.

Definition ret {A} (a : A) : M A := fun w => (Ok a, w).

Definition raise {A} (e : exn) : M A := fun w => (Raise e, w).

Definition bind {A B} (m : M A) (f : A -> M B) : M B :=
  fun w =>
    match m w with
    | (Ok a, w') => f a w'
    | (Raise e, w') => (Raise e, w')
    end.

Definition lift {A} (r : result A) : M A := fun w => (r, w).

Definition emit (e : event) : M unit :=
  fun w => (Ok tt, with_log w (log w ++ [e])).

Definition reads {A} (f : World -> A) : M A := fun w => (Ok (f w), w).

Notation "'do' x <- m ; k" := (bind m (fun x => k))
  (at level 10, x name, m at level 100, k at level 200).
Notation "'run' m ; k" := (bind m (fun _ => k))
  (at level 10, m at level 100, k at level 200).

(** [d[key]]: [KeyError] when the key is missing. *)
Definition getitem (d : dict) (k : string) : result pyval :=
  match d !! k with
  | Some v => Ok v
  | None => Raise KeyError
  end.

(** A string is expected (a path segment): anything else is a [TypeError]. *)
Definition as_str (v : pyval) : result string :=
  match v with
  | PyStr s => Ok s
  | _ => Raise TypeError
  end.

(** *** Paths

    A [Path] is its sequence of segments; [p / seg] adds one, [p.parent]
    drops the last, [str(p)] joins them.  Segments are taken as they are. *)
Abbreviation path := (list string).

Definition truediv (p : path) (seg : string) : path := p ++ [seg].
Definition parent (p : path) : path := removelast p.
Definition str (p : path) : string := String.concat "/" p.

(** [p.exists()] *)
Definition path_exists (p : path) : M bool :=
  run emit (CallExists (str p));
  reads (fun w => bool_decide (str p ∈ files w)).

(** [shutil.move(src, dst)] *)
Definition shutil_move (src : string) (dst : path) : M unit :=
  run emit (CallMove src (str dst));
  fun w =>
    if bool_decide (src ∈ files w)
    then (Ok tt, with_files w (files w ∖ {[src]} ∪ {[str dst]}))
    else (Raise FileNotFoundError, w).

(** *** The collaborators from [neuromaps.datasets.utils] *)

(** Modelled from the spec: [_get_token] of [neuromaps.datasets.utils] is not
    part of the sources; it resolves a token by "checking an explicit argument
    first, then a named environment variable, then absence"; the variable is
    ['NEUROMAPS_OSF_TOKEN'] by the docstring of [fetch_annotation]. *)
Definition resolved_token (token : pyval) (w : World) : pyval :=
  if is_None token
  then match environ w !! "NEUROMAPS_OSF_TOKEN" with
       | Some t => PyStr t
       | None => PyNone
       end
  else token.

(** Modelled from the spec: the call of [_get_token], logged. *)
Definition _get_token (token : pyval) : M pyval :=
  run emit (CallGetToken token);
  reads (resolved_token token).

(** Modelled from the spec: [get_data_dir] of [neuromaps.datasets.utils] is
    not part of the sources; it resolves the cache root by "checking explicit
    argument, then a named environment variable, then a fixed default under
    the user's home directory"; ['NEUROMAPS_DATA'] and [~/neuromaps-data] by
    the docstring of [fetch_annotation]. *)
Definition resolved_data_dir (data_dir : pyval) (w : World) : result string :=
  match data_dir with
  | PyStr d => Ok d
  | PyNone => Ok (default "~/neuromaps-data" (environ w !! "NEUROMAPS_DATA"))
  | PyList _ => Raise TypeError
  end.

(** Modelled from the spec: the call of [get_data_dir], logged. *)
Definition get_data_dir (data_dir : pyval) : M string :=
  run emit (CallGetDataDir data_dir);
  fun w => (resolved_data_dir data_dir w, w).

(** Modelled from the spec: [get_dataset_info] of [neuromaps.datasets.utils]
    is not part of the sources; the catalog is "partitioned by category" and
    "queried with a visibility flag that includes/excludes records marked
    restricted". *)
Definition visible (return_restricted : bool) (es : list entry) : list dict :=
  map record (List.filter (fun e => return_restricted || negb (restricted e)) es).

(** Modelled from the spec: the records of a category that a query with
    the flag sees; an unknown category is a [KeyError]. *)
Definition dataset_info (name : string) (return_restricted : bool) (w : World)
  : result (list dict) :=
  match catalog w !! name with
  | Some es => Ok (visible return_restricted es)
  | None => Raise KeyError
  end.

(** Modelled from the spec: the call of [get_dataset_info], logged. *)
Definition get_dataset_info (name : string) (return_restricted : bool)
  : M (list dict) :=
  run emit (CallGetDatasetInfo name return_restricted);
  fun w => (dataset_info name return_restricted w, w).

(** Modelled from the spec: [_get_session] of [neuromaps.datasets.utils] is
    not part of the sources; it "produce[s] a session object carrying optional
    credentials".  The session is represented by the credentials it carries. *)
Definition _get_session (token : pyval) : M pyval :=
  run emit (CallGetSession token);
  ret token.

(** The last segment of a URL. *)
Fixpoint basename_from (acc s : string) : string :=
  match s with
  | EmptyString => acc
  | String c s' =>
      if Ascii.eqb c "/" then basename_from "" s'
      else basename_from (acc ++ String c "")%string s'
  end.

(** Modelled from the spec: [_fetch_file] is nilearn's, not part of the
    sources; it is the fetch capability
    "fetch(url, dest_dir, checksum, session) -> temp_local_path, fails on
    network error or checksum mismatch".  The downloaded file is placed in
    [dest_dir] under the last segment of the URL. *)
Definition _fetch_file (url : pyval) (dir : string) (verbose : Z)
    (md5sum : pyval) (session : pyval) : M string :=
  run emit (CallFetchFile url dir md5sum session);
  do u <- lift (as_str url);
  fun w =>
    match remote w u session with
    | None => (Raise NetworkError, w)
    | Some sum =>
        if is_None md5sum || py_eq md5sum (PyStr sum)
        then let f := (dir ++ "/" ++ basename_from "" u)%string in
             (Ok f, with_files w (files w ∪ {[f]}))
        else (Raise IntegrityError, w)
    end.

(** [warnings.warn(...)]: the warning is issued and [None] is returned. *)
Definition warnings_warn (msg : warning) : M pyval :=
  run emit (CallWarn msg);
  ret PyNone.

(** [raise v] where [v] is not an exception (no [pyval] is one):
    "exceptions must derive from BaseException". *)
Definition py_raise {A} (v : pyval) : M A := raise TypeError.

(** ** [fetch_annotation] *)

(** The keyword arguments [fetch_annotation] passes on to [_match_annot]:
    all eight keys are present, unset ones with the value [None]. *)
Definition kwargs_of (source desc space den res hemi tags format : pyval) : dict :=
  list_to_map [("source", source); ("desc", desc); ("space", space);
               ("den", den); ("res", res); ("hemi", hemi); ("tags", tags);
               ("format", format)].

(** [Path(data_dir) / 'annotations' / dset['rel_path'] / dset['fname']] *)
Definition expected_path (data_dir : string) (dset : dict) : result path :=
  rbind (rbind (getitem dset "rel_path") as_str) (fun rel_path =>
  rbind (rbind (getitem dset "fname") as_str) (fun fname =>
  Ok (truediv (truediv (truediv [data_dir] "annotations") rel_path) fname))).

(** The loop [for dset in info] that fills [data]. *)
Fixpoint fetch_files (data_dir : string) (verbose : Z) (session : pyval)
    (info : list dict) (data : list string) : M (list string) :=
  match info with
  | [] => ret data
  | dset :: rest =>
      do fn <- lift (expected_path data_dir dset);
      do there <- path_exists fn;
      run (if negb there then
             do url <- lift (getitem dset "url");
             do checksum <- lift (getitem dset "checksum");
             do dl_file <- _fetch_file url (str (parent fn)) verbose checksum session;
             shutil_move dl_file fn
           else ret tt);
      fetch_files data_dir verbose session rest (data ++ [str fn])
  end.

(** One element of the list [warn]. *)
Definition caveat (dset : dict) : result bool :=
  rbind (getitem dset "source") (fun source =>
  rbind (getitem dset "space") (fun space =>
  Ok ((py_eq source (PyStr "beliveau2017") || py_eq source (PyStr "norgaard2021"))
      && py_eq space (PyStr "MNI152")))).

Fixpoint caveats (info : list dict) : result (list bool) :=
  match info with
  | [] => Ok []
  | dset :: rest =>
      rbind (caveat dset) (fun b =>
      rbind (caveats rest) (fun bs => Ok (b :: bs)))
  end.

(** [any(l)] *)
Definition any (l : list bool) : bool := existsb (fun b => b) l.

(** [False if (token is None or not token) else True] *)
Definition return_restricted_of (token : pyval) : bool :=
  if is_None token || negb (truthy token) then false else true.

Definition fetch_annotation (source desc space den res hemi tags format : pyval)
    (return_single : bool) (token data_dir : pyval) (verbose : Z) : M grouped :=
  (* check input parameters to ensure we're fetching _something_ *)
  let supplied :=
    existsb (fun val => negb (is_None val))
            [source; desc; space; den; res; hemi; tags; format] in
  if negb supplied then raise ValueError
  else
    (* get info on datasets we need to fetch *)
    do token <- _get_token token;
    let return_restricted := return_restricted_of token in
    do data_dir <- get_data_dir data_dir;
    do all_info <- get_dataset_info "annotations" return_restricted;
    let info := _match_annot all_info
                  (kwargs_of source desc space den res hemi tags format) in
    run (if (1 <? verbose)%Z then emit (CallPrint (List.length info)) else ret tt);
    (* get session for requests *)
    do session <- _get_session token;
    do data <- fetch_files data_dir verbose session info [];
    (* warning for specific maps *)
    do warn <- lift (caveats info);
    run (if any warn then emit (CallWarn BestInFsaverage) else ret tt);
    lift (_groupby_match data return_single).

(** ** [get_annotations_desc] *)

(** [annots]: a tuple or a list of tuples. *)
Inductive annots_arg : Type :=
| OneAnnot (annot : key)
| AnnotList (annots : list key).

(** [a.combine_first(b)]: [a] where it is not null, else [b]. *)
Definition combine_first (a b : pyval) : pyval := if is_None a then b else a.

(** The column ["annot.key"]. *)
Definition annot_key (r : info_row) : list pyval :=
  [annot_source r; annot_desc r; annot_space r;
   combine_first (annot_den r) (annot_res r)].

(** Equality of a requested tuple of strings with a tuple of the catalog. *)
Definition key_is (annot : key) (k : list pyval) : bool :=
  bool_decide (map PyStr annot = k).

(** [annot in keys_list] *)
Definition key_in (annot : key) (keys_list : list (list pyval)) : bool :=
  existsb (key_is annot) keys_list.

(** [annot in annots_not_avail] *)
Definition annot_in (annot : key) (l : list key) : bool :=
  existsb (fun a => bool_decide (annot = a)) l.

(** [df.set_index("annot.key").loc[annots_avail, :]]: for every requested
    label, in the order requested, the rows that carry it. *)
Definition loc (annots_avail : list key) (info : list info_row) : list info_row :=
  flat_map (fun annot => List.filter (fun r => key_is annot (annot_key r)) info)
           annots_avail.

Definition get_annotations_desc (annots : annots_arg) : M (list info_row) :=
  let annots := match annots with
                | OneAnnot annot => [annot]
                | AnnotList l => l
                end in
  run emit CallOpenInfo;
  do info <- reads info_json;
  let keys_list := map annot_key info in
  (* find the annotations that are not available *)
  let annots_not_avail :=
    List.filter (fun annot => negb (key_in annot keys_list)) annots in
  run (if Nat.ltb 0 (List.length annots_not_avail)
       then do w <- warnings_warn (NotAvailable annots_not_avail);
            py_raise w
       else ret tt);
  let annots_avail :=
    List.filter (fun annot => negb (annot_in annot annots_not_avail)) annots in
  ret (loc annots_avail info).

(** ** Vocabulary of the statements *)

(** Whether [dset] passes the check of one key, taken on its own. *)
Definition key_ok (dset kwargs : dict) (key : string) : bool :=
  check_key dset kwargs true key.

(** Whether [_match_annot] keeps [dset]. *)
Definition includes (kwargs dset : dict) : bool :=
  dset_matches (normalize_tags kwargs) (denres_of (normalize_tags kwargs)) dset.

(** The checks on the six attributes, without the den/res pool. *)
Definition attrs_ok (kwargs dset : dict) : bool :=
  fold_left (check_key dset (normalize_tags kwargs)) match_keys true.

(** The check against the pool of den/res values. *)
Definition denres_ok (denres : list string) (dset : dict) : bool :=
  in_strs (py_or (get dset "den") (get dset "res")) denres.

(** The strings a constraint supplies: the string itself, or the elements
    of the list. *)
Definition values_of (v : pyval) : list string :=
  match v with
  | PyStr s => [s]
  | PyList l => l
  | PyNone => []
  end.

(** [v] is one of the values supplied by the constraint [c]. *)
Definition supplied_by (c : pyval) (v : string) : Prop :=
  c = PyStr v \/ exists l, c = PyList l /\ In v l.

(** The attributes whose constraint reaches the string branch of the loop
    as a string: [tags] is turned into a list before. *)
Definition scalar_keys : list string :=
  ["source"; "desc"; "space"; "hemi"; "format"].

(** [dset] has a value for [key]. *)
Definition has_value (key : string) (dset : dict) : bool :=
  negb (is_None (get dset key)).

(** The file names of [fnames] whose key is [k], in the order of [fnames]. *)
Definition members (k : key) (fnames : list string) : list string :=
  List.filter (fun fn => bool_decide (Re.search MATCH fn = Some k)) fnames.

(** The value a bucket is given in the result: its only member, or the list
    of its members. *)
Definition shape (v : list string) : gval :=
  match v with
  | [x] => One x
  | _ => Many v
  end.

(** The keys of [fnames] in the order in which they are first seen. *)
Definition add_key (acc : list key) (fn : string) : list key :=
  match Re.search MATCH fn with
  | Some k => if existsb (fun k' => bool_decide (k = k')) acc then acc else acc ++ [k]
  | None => acc
  end.

Definition first_seen_keys (fnames : list string) : list key :=
  fold_left add_key fnames [].

(** [out.get(k)] on the buckets. *)
Fixpoint bucket_lookup (out : buckets) (k : key) : option (list string) :=
  match out with
  | [] => None
  | (k', v) :: out' => if bool_decide (k = k') then Some v else bucket_lookup out' k
  end.

(** [out] is the grouping of the file names [seen] so far. *)
Definition groups_of (seen : list string) (out : buckets) : Prop :=
  map fst out = first_seen_keys seen
  /\ NoDup (map fst out)
  /\ forall k, bucket_lookup out k =
       match members k seen with
       | [] => None
       | v => Some v
       end.

(** What [fetch_annotation] does once the records [info] are matched:
    the remainder of its body. *)
Definition fetch_matched (info : list dict) (data_dir : string) (token : pyval)
    (return_single : bool) (verbose : Z) : M grouped :=
  run (if (1 <? verbose)%Z then emit (CallPrint (List.length info)) else ret tt);
  do session <- _get_session token;
  do data <- fetch_files data_dir verbose session info [];
  do warn <- lift (caveats info);
  run (if any warn then emit (CallWarn BestInFsaverage) else ret tt);
  lift (_groupby_match data return_single).

(** The expected local paths of the records [info], in their order. *)
Fixpoint expected_paths (data_dir : string) (info : list dict) : result (list path) :=
  match info with
  | [] => Ok []
  | dset :: rest =>
      rbind (expected_path data_dir dset) (fun fn =>
      rbind (expected_paths data_dir rest) (fun fns => Ok (fn :: fns)))
  end.

(** The records a call matches in the world [w]. *)
Definition matched_records (kwargs : dict) (token : pyval) (w : World) : list dict :=
  match dataset_info "annotations"
          (return_restricted_of (resolved_token token w)) w with
  | Ok all_info => _match_annot all_info kwargs
  | Raise _ => []
  end.

(** The number of invocations of the fetch capability in a log. *)
Definition is_fetch_call (e : event) : bool :=
  match e with
  | CallFetchFile _ _ _ _ => true
  | _ => false
  end.

Definition fetch_calls (l : list event) : nat :=
  List.length (List.filter is_fetch_call l).

(** [w'] differs from [w] in its files and its log at most. *)
Definition same_setting (w w' : World) : Prop :=
  environ w' = environ w /\ catalog w' = catalog w
  /\ info_json w' = info_json w /\ remote w' = remote w.

(** A computation that changes nothing but files and log. *)
Definition frames {A} (m : M A) : Prop :=
  forall w r w', m w = (r, w') -> same_setting w w'.

(** The events of the three look-ups that open [fetch_annotation]. *)
Definition lookups (token data_dir : pyval) (return_restricted : bool) : list event :=
  [CallGetToken token; CallGetDataDir data_dir;
   CallGetDatasetInfo "annotations" return_restricted].

(** The list [get_annotations_desc] works on: a lone tuple is wrapped. *)
Definition annots_list (annots : annots_arg) : list key :=
  match annots with
  | OneAnnot annot => [annot]
  | AnnotList l => l
  end.

(** The requested keys the side-catalog of [w] does not hold. *)
Definition not_available (annots : annots_arg) (w : World) : list key :=
  List.filter (fun annot => negb (key_in annot (map annot_key (info_json w))))
              (annots_list annots).

(** ** Example data *)

(** The record of the spec's scenario, left hemisphere. *)
Definition ex_abc2020 : dict :=
  list_to_map
    [("source", PyStr "abc2020"); ("desc", PyStr "density");
     ("space", PyStr "fsaverage"); ("den", PyStr "10k"); ("res", PyNone);
     ("hemi", PyStr "L"); ("tags", PyList ["PET"; "receptors"]);
     ("format", PyStr "surface");
     ("fname", PyStr "source-abc2020_desc-density_space-fsaverage_den-10k_hemi-L_feature.func.gii");
     ("rel_path", PyStr "abc2020/density/fsaverage");
     ("url", PyStr "https://files.osf.io/v1/resources/4mw3a/providers/osfstorage/60b684b53a6df1021bd4df2d");
     ("checksum", PyStr "d41d8cd98f00b204e9800998ecf8427e")].

(** Its right-hemisphere sibling: the same key, another file. *)
Definition ex_abc2020_R : dict :=
  <[ "hemi" := PyStr "R" ]>
    (<[ "fname" :=
          PyStr "source-abc2020_desc-density_space-fsaverage_den-10k_hemi-R_feature.func.gii" ]>
       ex_abc2020).

(** File names of three catalog records: two hemispheres of one annotation
    around a volumetric one. *)
Definition ex_fnames : list string :=
  ["source-abc2020_desc-density_space-fsaverage_den-10k_hemi-L_feature.func.gii";
   "source-xyz2021_desc-cbf_space-MNI152_res-1mm_feature.nii.gz";
   "source-abc2020_desc-density_space-fsaverage_den-10k_hemi-R_feature.func.gii"].

(** A record only credentials give access to. *)
Definition ex_private : dict :=
  <[ "source" := PyStr "hidden2022" ]>
    (<[ "fname" :=
          PyStr "source-hidden2022_desc-density_space-fsaverage_den-10k_hemi-L_feature.func.gii" ]>
       ex_abc2020).

(** A volumetric record: no hemisphere, a resolution instead of a density. *)
Definition ex_vol : dict :=
  list_to_map
    [("source", PyStr "xyz2021"); ("desc", PyStr "cbf");
     ("space", PyStr "MNI152"); ("den", PyNone); ("res", PyStr "1mm");
     ("hemi", PyNone); ("tags", PyNone); ("format", PyStr "volume");
     ("fname", PyStr "source-xyz2021_desc-cbf_space-MNI152_res-1mm_feature.nii.gz");
     ("rel_path", PyStr "xyz2021/cbf/MNI152");
     ("url", PyStr "https://files.osf.io/v1/resources/4mw3a/providers/osfstorage/5f1a");
     ("checksum", PyStr "0cc175b9c0f1b6a831c399e269772661")].

(** The description of the annotation of the scenario. *)
Definition ex_row : info_row :=
  mkRow (PyStr "abc2020") (PyStr "density") (PyStr "fsaverage")
        (PyStr "10k") PyNone
        (PyStr "receptor density") (PyList ["abc2020"]) PyNone
        (PyStr "24") (PyStr "31.2").

(** A world with an empty cache: the catalog holds the two hemispheres of
    one annotation and a restricted record; the server delivers every file
    with the checksum the catalog records; the token variable is set, and
    empty. *)
Definition ex_world : World :=
  mkWorld {[ "NEUROMAPS_OSF_TOKEN" := "" ]}
          {[ "annotations" := [mkEntry false ex_abc2020;
                               mkEntry true ex_private;
                               mkEntry false ex_abc2020_R] ]}
          [ex_row]
          (fun _ _ => Some "d41d8cd98f00b204e9800998ecf8427e")
          ∅
          [].

(** ** [available_annotations] and [available_tags] *)

(** [[dset['fname'] for dset in info]] *)
Fixpoint fnames_of (info : list dict) : result (list pyval) :=
  match info with
  | [] => Ok []
  | dset :: rest =>
      rbind (getitem dset "fname") (fun fn =>
      rbind (fnames_of rest) (fun fns => Ok (fn :: fns)))
  end.

(** The strings at the front of a list of values, and whether the list
    holds nothing else. *)
Fixpoint strings_upto (fnames : list pyval) : list string * bool :=
  match fnames with
  | [] => ([], true)
  | PyStr s :: rest => let (l, all_str) := strings_upto rest in (s :: l, all_str)
  | _ :: _ => ([], false)
  end.

(** [_groupby_match] called on values read from the catalog: [MATCH.search]
    raises [TypeError] on a value that is no string, when the loop reaches
    it. *)
Definition groupby_match_values (fnames : list pyval) (return_single : bool)
  : result grouped :=
  let (strs, all_str) := strings_upto fnames in
  if all_str then _groupby_match strs return_single
  else rbind (group_loop strs []) (fun _ => Raise TypeError).

(** [list(g.keys())]; a string or a list has no [keys]. *)
Definition keys_of (g : grouped) : result (list key) :=
  match g with
  | Mapping d => Ok (map fst d)
  | Direct _ => Raise AttributeError
  end.

Definition available_annotations
    (source desc space den res hemi tags format : pyval)
    (return_restricted : bool) : M (list key) :=
  do all_info <- get_dataset_info "annotations" return_restricted;
  let info := _match_annot all_info
                (kwargs_of source desc space den res hemi tags format) in
  do fnames <- lift (fnames_of info);
  do groups <- lift (groupby_match_values fnames false);
  lift (keys_of groups).

(** The characters of a string, each as a string. *)
Fixpoint chars_of (s : string) : list string :=
  match s with
  | EmptyString => []
  | String c s' => String c "" :: chars_of s'
  end.

(** What iterating over a value yields: the elements of a list, the
    characters of a string. *)
Definition iterate (v : pyval) : result (list string) :=
  match v with
  | PyList l => Ok l
  | PyStr s => Ok (chars_of s)
  | PyNone => Raise TypeError
  end.

(** The loop of [available_tags]:
    [if dset['tags'] is not None: tags.update(dset['tags'])]. *)
Fixpoint collect_tags (info : list dict) (tags : gset string)
  : result (gset string) :=
  match info with
  | [] => Ok tags
  | dset :: rest =>
      rbind (getitem dset "tags") (fun v =>
      if negb (is_None v)
      then rbind (iterate v) (fun l => collect_tags rest (tags ∪ list_to_set l))
      else collect_tags rest tags)
  end.

(** [sorted(tags)]: strings compare by their code points. *)
Definition sorted (tags : gset string) : list string :=
  merge_sort String.le (elements tags).

Definition available_tags (return_restricted : bool) : M (list string) :=
  do info <- get_dataset_info "annotations" return_restricted;
  do tags <- lift (collect_tags info ∅);
  ret (sorted tags).

(** ** Vocabulary of the further statements *)

(** A file name that holds the pattern of [MATCH], spelled out. *)
Definition well_formed_name (fn : string) : Prop :=
  exists pre g1 g2 g3 dr digits unit post,
    fn = String.append pre
          (String.append "source-" (String.append g1
          (String.append "_desc-" (String.append g2
          (String.append "_space-" (String.append g3
          (String.append "_" (String.append dr
          (String.append "-" (String.append (String.append digits unit)
          (String.append "_" post)))))))))))
    /\ (dr = "den" \/ dr = "res")
    /\ (1 <= String.length g1 /\ Re.all_in Re.non_space g1 = true)
    /\ (1 <= String.length g2 /\ Re.all_in Re.non_space g2 = true)
    /\ (1 <= String.length g3 /\ Re.all_in Re.non_space g3 = true)
    /\ (1 <= String.length digits /\ Re.all_in Re.digit digits = true)
    /\ (1 <= String.length unit <= 2 /\ Re.all_in Re.k_bar_m unit = true).

(** The file names behind a value of the returned dictionary. *)
Definition unshape (v : gval) : list string :=
  match v with
  | One x => [x]
  | Many l => l
  end.

(** The values of the returned dictionary, flattened in its order. *)
Definition flatten (d : list (key * gval)) : list string :=
  flat_map (fun kv => unshape (snd kv)) d.

(** The file names behind what [_groupby_match] returns. *)
Definition names_of (g : grouped) : list string :=
  match g with
  | Mapping d => flatten d
  | Direct v => unshape v
  end.


(** The tags a record contributes to [available_tags]. *)
Definition tags_in (dset : dict) : list string :=
  match get dset "tags" with
  | PyList l => l
  | PyStr s => chars_of s
  | PyNone => []
  end.

(** * Properties *)

(** ** The pattern matcher *)

Section Regex.

Local Notation "a +++ b" := (String.append a b)
  (at level 60, right associativity).
Local Arguments String.append : simpl nomatch.

Lemma append_nil_r (s : string) : s +++ "" = s.
Proof. induction s as [|c s IH]; simpl; [reflexivity | now rewrite IH]. Qed.

Lemma append_assoc (a b c : string) : (a +++ b) +++ c = a +++ b +++ c.
Proof. induction a as [|x a IH]; simpl; [reflexivity | now rewrite IH]. Qed.

Lemma length_append (a b : string) :
  String.length (a +++ b) = String.length a + String.length b.
Proof. induction a as [|x a IH]; simpl; [reflexivity | now rewrite IH]. Qed.

Lemma take_append (w s : string) : Re.take (String.length w) (w +++ s) = w.
Proof. induction w as [|c w IH]; simpl; [now destruct s | now rewrite IH]. Qed.

Lemma consumed_append (w s : string) : Re.consumed (w +++ s) s = w.
Proof.
  unfold Re.consumed. rewrite length_append.
  replace (String.length w + String.length s - String.length s)
    with (String.length w) by lia.
  apply take_append.
Qed.

Lemma lit_sound {A} (p s : string) (k : string -> option A) (res : A) :
  Re.lit p s k = Some res -> exists s', s = p +++ s' /\ k s' = Some res.
Proof.
  revert s. induction p as [|c p IH]; intros s H; simpl in H.
  - now exists s.
  - destruct s as [|d s]; [discriminate|].
    destruct (Ascii.eqb c d) eqn:E; [|discriminate].
    apply Ascii.eqb_eq in E as ->.
    destruct (IH _ H) as (s' & -> & Hk). now exists s'.
Qed.

Lemma rep_sound {A} cls lo hi (s : string) (k : string -> option A) (res : A) :
  Re.rep cls lo hi s k = Some res ->
  exists w s',
    s = w +++ s' /\ lo <= String.length w
    /\ (forall n, hi = Some n -> String.length w <= n)
    /\ Re.all_in cls w = true /\ k s' = Some res.
Proof.
  revert lo hi.
  assert (Hstop : forall lo hi s,
            (if Nat.eqb lo 0 then k s else None) = Some res ->
            exists w s',
              s = w +++ s' /\ lo <= String.length w
              /\ (forall n, hi = Some n -> String.length w <= n)
              /\ Re.all_in cls w = true /\ k s' = Some res).
  { intros lo hi s0 H. destruct (Nat.eqb lo 0) eqn:E; [|discriminate].
    apply Nat.eqb_eq in E as ->.
    exists "", s0. repeat split; simpl; auto; lia. }
  induction s as [|c s IH]; intros lo hi H; simpl in H.
  - now apply Hstop.
  - destruct (cls c && Re.may_take hi) eqn:E; [|now apply Hstop].
    apply andb_true_iff in E as [Hc Hm].
    destruct (Re.rep cls (Nat.pred lo) (Re.dec hi) s k) as [r|] eqn:Er;
      [|now apply Hstop].
    injection H as ->.
    destruct (IH _ _ Er) as (w & s' & -> & Hlo & Hhi & Hall & Hk).
    exists (String c w), s'. repeat split; simpl; auto.
    + lia.
    + intros n ->. simpl in Hm. destruct n as [|n]; [discriminate|].
      specialize (Hhi n eq_refl). lia.
    + now rewrite Hc.
Qed.

(** Soundness of the backtracking matcher: what it accepts is a prefix that
    matches the pattern, and the continuation has accepted the rest with the
    groups of that prefix added. *)
Lemma bt_sound r s caps k res :
  Re.bt r s caps k = Some res ->
  exists w s' gs,
    s = w +++ s' /\ Re.matches r w gs /\ k s' (caps ++ gs) = Some res.
Proof.
  revert s caps k.
  induction r as [p|cls lo hi|r IH|r1 IH1 r2 IH2|r1 IH1 r2 IH2];
    intros s caps k H; simpl in H.
  - apply lit_sound in H as (s' & -> & Hk).
    exists p, s', []. rewrite app_nil_r. repeat split; auto. constructor.
  - apply rep_sound in H as (w & s' & -> & Hlo & Hhi & Hall & Hk).
    exists w, s', []. rewrite app_nil_r. repeat split; auto. now constructor.
  - apply IH in H as (w & s' & gs & -> & Hm & Hk).
    rewrite consumed_append in Hk.
    exists w, s', (gs ++ [w]). rewrite app_assoc.
    repeat split; auto. now constructor.
  - destruct (Re.bt r1 s caps k) as [res1|] eqn:E1.
    + injection H as ->. apply IH1 in E1 as (w & s' & gs & -> & Hm & Hk).
      exists w, s', gs. repeat split; auto. now apply Re.MAltL.
    + apply IH2 in H as (w & s' & gs & -> & Hm & Hk).
      exists w, s', gs. repeat split; auto. now apply Re.MAltR.
  - apply IH1 in H as (w1 & s1 & gs1 & -> & Hm1 & Hk1).
    apply IH2 in Hk1 as (w2 & s2 & gs2 & -> & Hm2 & Hk2).
    exists (w1 +++ w2), s2, (gs1 ++ gs2).
    rewrite append_assoc, app_assoc. repeat split; auto. now constructor.
Qed.

(** Soundness of [search]: a match object stands for a stretch of the
    string that matches the pattern. *)
Lemma search_sound r s gs :
  Re.search r s = Some gs ->
  exists pre w post, s = pre +++ w +++ post /\ Re.matches r w gs.
Proof.
  induction s as [|c s IH]; simpl; unfold Re.match_at.
  - destruct (Re.bt r "" [] _) as [g|] eqn:E; [|discriminate].
    intros [= ->]. apply bt_sound in E as (w & s' & gs' & Hs & Hm & Hk).
    injection Hk as <-. now exists "", w, s'.
  - destruct (Re.bt r (String c s) [] _) as [g|] eqn:E.
    + intros [= ->]. apply bt_sound in E as (w & s' & gs' & Hs & Hm & Hk).
      injection Hk as <-. now exists "", w, s'.
    + intros H. apply IH in H as (pre & w & post & -> & Hm).
      now exists (String c pre), w, post.
Qed.

Ltac inv_matches :=
  repeat match goal with
    | H : Re.matches (Re.Cat _ _) _ _ |- _ => inversion H; subst; clear H
    | H : Re.matches (Re.Lit _) _ _ |- _ => inversion H; subst; clear H
    | H : Re.matches (Re.Group _) _ _ |- _ => inversion H; subst; clear H
    | H : Re.matches (Re.Alt _ _) _ _ |- _ => inversion H; subst; clear H
    | H : Re.matches (Re.Rep _ _ _) _ _ |- _ => inversion H; subst; clear H
    end.

(** What a stretch matched by [MATCH] looks like, and its four groups. *)
Lemma MATCH_shape w gs :
  Re.matches MATCH w gs ->
  exists g1 g2 g3 dr digits unit,
    gs = [g1; g2; g3; digits +++ unit]
    /\ w = "source-" +++ g1 +++ "_desc-" +++ g2 +++ "_space-" +++ g3 +++ "_"
           +++ dr +++ "-" +++ (digits +++ unit) +++ "_"
    /\ (dr = "den" \/ dr = "res")
    /\ (1 <= String.length g1 /\ Re.all_in Re.non_space g1 = true)
    /\ (1 <= String.length g2 /\ Re.all_in Re.non_space g2 = true)
    /\ (1 <= String.length g3 /\ Re.all_in Re.non_space g3 = true)
    /\ (1 <= String.length digits /\ Re.all_in Re.digit digits = true)
    /\ (1 <= String.length unit <= 2 /\ Re.all_in Re.k_bar_m unit = true).
Proof.
  unfold MATCH. intros H. inv_matches.
  all: match goal with
       | |- context [ (?g1 +++ "_desc-" +++ ?g2 +++ "_space-" +++ ?g3 +++ "_"
                        +++ ?dr +++ "-" +++ (?ds +++ ?u) +++ "_") ] =>
           exists g1, g2, g3, dr, ds, u
       end.
  all: repeat split; auto.
  all: match goal with H : forall n, Some 2 = Some n -> _ |- _ =>
         apply (H 2 eq_refl) end.
Qed.

(** The key of a file name has four components. *)
Lemma search_MATCH_length fn gs :
  Re.search MATCH fn = Some gs -> List.length gs = 4.
Proof.
  intros H. apply search_sound in H as (pre & w & post & _ & Hm).
  apply MATCH_shape in Hm as (g1 & g2 & g3 & dr & ds & u & -> & _).
  reflexivity.
Qed.

(** A file name the pattern finds nothing in holds no matching stretch. *)
Lemma search_MATCH_holds fn gs :
  Re.search MATCH fn = Some gs -> holds_match fn gs.
Proof. intros H. apply search_sound in H. exact H. Qed.

End Regex.

(** ** The grouping engine *)

Section Grouping.

Implicit Types (out : buckets) (k : key) (fn : string) (fnames : list string).

Lemma existsb_key_In k (l : list key) :
  existsb (fun k' => bool_decide (k = k')) l = true <-> In k l.
Proof.
  rewrite existsb_exists. split.
  - intros (k' & Hin & He). apply bool_decide_eq_true in He. now subst.
  - intros H. exists k. split; [exact H | now apply bool_decide_eq_true].
Qed.

Lemma bucket_append_keys out k fn :
  map fst (bucket_append out k fn) =
    if existsb (fun k' => bool_decide (k = k')) (map fst out)
    then map fst out else map fst out ++ [k].
Proof.
  induction out as [|[k' v] out IH]; simpl; [reflexivity|].
  destruct (bool_decide (k = k')); simpl; [reflexivity|].
  rewrite IH. now destruct (existsb _ (map fst out)).
Qed.

Lemma bucket_append_lookup out k fn k' :
  bucket_lookup (bucket_append out k fn) k' =
    if bool_decide (k' = k)
    then Some (default [] (bucket_lookup out k) ++ [fn])
    else bucket_lookup out k'.
Proof.
  induction out as [|[k0 v] out IH]; simpl.
  - now destruct (bool_decide (k' = k)).
  - destruct (bool_decide (k = k0)) eqn:E; simpl.
    + apply bool_decide_eq_true in E as <-.
      now destruct (bool_decide (k' = k)).
    + destruct (bool_decide (k' = k0)) eqn:E'.
      * apply bool_decide_eq_true in E' as ->.
        apply bool_decide_eq_false in E.
        rewrite bool_decide_eq_false_2 by congruence. reflexivity.
      * exact IH.
Qed.

Lemma bucket_lookup_In out k v :
  NoDup (map fst out) -> In (k, v) out -> bucket_lookup out k = Some v.
Proof.
  induction out as [|[k0 v0] out IH]; simpl; [tauto|].
  intros Hnd [H|H].
  - injection H as -> ->. now rewrite bool_decide_eq_true_2.
  - apply NoDup_cons in Hnd as [Hnot Hnd].
    rewrite bool_decide_eq_false_2; [now apply IH|].
    intros ->. apply Hnot. apply list_elem_of_In, in_map_iff. now exists (k0, v).
Qed.

Lemma members_snoc k seen fn :
  members k (seen ++ [fn]) =
    members k seen ++ (if bool_decide (Re.search MATCH fn = Some k) then [fn] else []).
Proof. unfold members. rewrite List.filter_app. reflexivity. Qed.

Lemma first_seen_snoc seen fn :
  first_seen_keys (seen ++ [fn]) = add_key (first_seen_keys seen) fn.
Proof. unfold first_seen_keys. now rewrite fold_left_app. Qed.

(** One turn of the loop keeps [out] the grouping of what was seen. *)
Lemma groups_of_step seen out fn k :
  Re.search MATCH fn = Some k ->
  groups_of seen out ->
  groups_of (seen ++ [fn]) (bucket_append out k fn).
Proof.
  intros Hk (Hkeys & Hnd & Hlook). unfold groups_of.
  assert (Hk' : map fst (bucket_append out k fn) = first_seen_keys (seen ++ [fn])).
  { rewrite bucket_append_keys, first_seen_snoc. unfold add_key.
    now rewrite Hk, Hkeys. }
  split; [exact Hk'|]. split.
  - rewrite bucket_append_keys.
    destruct (existsb _ (map fst out)) eqn:E; [exact Hnd|].
    apply NoDup_app. split; [exact Hnd|]. split.
    + intros x Hx Hx'. apply list_elem_of_In in Hx, Hx'.
      destruct Hx' as [<-|[]]. apply existsb_key_In in Hx. congruence.
    + apply NoDup_singleton.
  - intros k'. rewrite bucket_append_lookup, members_snoc, Hk.
    destruct (bool_decide (k' = k)) eqn:E.
    + apply bool_decide_eq_true in E as ->.
      rewrite bool_decide_eq_true_2 by reflexivity.
      rewrite Hlook. destruct (members k seen) as [|x l]; reflexivity.
    + apply bool_decide_eq_false in E.
      rewrite bool_decide_eq_false_2 by congruence.
      rewrite app_nil_r. apply Hlook.
Qed.

Lemma groups_of_nil : groups_of [] [].
Proof. repeat split; constructor. Qed.

(** The loop succeeds when every name has a key, and then computes the
    grouping. *)
Lemma group_loop_groups fnames seen out :
  Forall (fun fn => Re.search MATCH fn <> None) fnames ->
  groups_of seen out ->
  exists out', group_loop fnames out = Ok out' /\ groups_of (seen ++ fnames) out'.
Proof.
  revert seen out. induction fnames as [|fn rest IH]; intros seen out Hall Hg; simpl.
  - exists out. now rewrite app_nil_r.
  - apply Forall_cons_iff in Hall as [Hfn Hall].
    destruct (Re.search MATCH fn) as [k|] eqn:Hk; [|congruence].
    destruct (IH (seen ++ [fn]) (bucket_append out k fn) Hall) as (out' & H1 & H2).
    + now apply groups_of_step.
    + exists out'. split; [exact H1|]. now rewrite <- app_assoc in H2.
Qed.

(** The loop stops with [AttributeError] at the first name without a key. *)
Lemma group_loop_raises fnames out :
  Exists (fun fn => Re.search MATCH fn = None) fnames ->
  group_loop fnames out = Raise AttributeError.
Proof.
  revert out. induction fnames as [|fn rest IH]; intros out H; simpl.
  - inversion H.
  - destruct (Re.search MATCH fn) as [k|] eqn:Hk; [|reflexivity].
    apply IH. apply Exists_cons in H as [H|H]; [congruence | exact H].
Qed.

Lemma collapse_shape (v : list string) : v <> [] -> collapse v = Ok (shape v).
Proof.
  intros Hv. unfold collapse, shape.
  destruct v as [|x [|y l]]; [congruence | reflexivity | reflexivity].
Qed.

Lemma collapse_all_shape out :
  (forall k v, In (k, v) out -> v <> []) ->
  collapse_all out = Ok (map (fun kv => (fst kv, shape (snd kv))) out).
Proof.
  induction out as [|[k v] out IH]; intros H; simpl; [reflexivity|].
  rewrite collapse_shape by (apply (H k); now left). simpl.
  rewrite IH by (intros k' v' Hin; apply (H k'); now right). reflexivity.
Qed.

Lemma groups_of_In seen out k v :
  groups_of seen out -> In (k, v) out -> v = members k seen /\ v <> [].
Proof.
  intros (_ & Hnd & Hlook) Hin.
  apply (bucket_lookup_In _ _ _ Hnd) in Hin. rewrite Hlook in Hin.
  destruct (members k seen); [discriminate|]. injection Hin as <-. now split.
Qed.

Lemma bucket_lookup_Some_In out k v :
  bucket_lookup out k = Some v -> In (k, v) out.
Proof.
  induction out as [|[k0 v0] out IH]; simpl; [discriminate|].
  destruct (bool_decide (k = k0)) eqn:E.
  - apply bool_decide_eq_true in E as ->. intros [= ->]. now left.
  - intros H. right. now apply IH.
Qed.

Lemma members_In k fnames fn :
  In fn (members k fnames) <-> In fn fnames /\ Re.search MATCH fn = Some k.
Proof. unfold members. rewrite filter_In, bool_decide_eq_true. reflexivity. Qed.

(** C6: for file names that all have a key, the grouping engine returns a
    mapping whose keys are the distinct four-component keys in first-seen
    order, each mapped to the only member of its bucket (not a one-element
    list) or to the list of its members in the order of the input; with the
    single-group flag set and exactly one bucket, the value of that bucket
    is returned in place of the mapping. *)
Theorem groupby_match_returns (fnames : list string) :
  Forall (fun fn => Re.search MATCH fn <> None) fnames ->
  exists d,
    _groupby_match fnames false = Ok (Mapping d)
    /\ map fst d = first_seen_keys fnames
    /\ NoDup (map fst d)
    /\ (forall k v, In (k, v) d ->
          List.length k = 4 /\ members k fnames <> []
          /\ v = shape (members k fnames))
    /\ (forall fn k, In fn fnames -> Re.search MATCH fn = Some k ->
          In (k, shape (members k fnames)) d)
    /\ _groupby_match fnames true =
         match d with
         | [(_, v)] => Ok (Direct v)
         | _ => Ok (Mapping d)
         end.
Proof.
  intros Hall.
  destruct (group_loop_groups fnames [] [] Hall groups_of_nil) as (out & Hloop & Hg).
  simpl in Hg.
  assert (Hne : forall k v, In (k, v) out -> v <> []).
  { intros k v Hin. now destruct (groups_of_In _ _ _ _ Hg Hin). }
  set (d := map (fun kv => (fst kv, shape (snd kv))) out).
  assert (Hkeys : map fst d = map fst out).
  { unfold d. rewrite map_map. reflexivity. }
  exists d. repeat split.
  - unfold _groupby_match. rewrite Hloop. simpl.
    rewrite (collapse_all_shape _ Hne). reflexivity.
  - rewrite Hkeys. apply Hg.
  - rewrite Hkeys. apply Hg.
  - unfold d in H. apply in_map_iff in H as ([k0 v0] & [= <- <-] & Hin).
    destruct (groups_of_In _ _ _ _ Hg Hin) as [-> Hv].
    destruct (members k0 fnames) as [|fn l] eqn:Hm; [congruence|].
    assert (Hfn : In fn (members k0 fnames)) by (rewrite Hm; now left).
    apply members_In in Hfn as [_ Hfn]. exact (search_MATCH_length _ _ Hfn).
  - unfold d in H. apply in_map_iff in H as ([k0 v0] & [= <- <-] & Hin).
    now destruct (groups_of_In _ _ _ _ Hg Hin) as [<- Hv].
  - unfold d in H. apply in_map_iff in H as ([k0 v0] & [= <- <-] & Hin).
    destruct (groups_of_In _ _ _ _ Hg Hin) as [-> Hv]. reflexivity.
  - intros fn k Hin Hk.
    destruct Hg as (_ & _ & Hlook). specialize (Hlook k).
    assert (Hm : In fn (members k fnames)) by now apply members_In.
    destruct (members k fnames) as [|x l] eqn:E; [destruct Hm|].
    apply bucket_lookup_Some_In in Hlook.
    unfold d. apply in_map_iff. now exists (k, x :: l).
  - unfold _groupby_match. rewrite Hloop. simpl.
    rewrite (collapse_all_shape _ Hne). fold d. simpl.
    destruct d as [|[k v] [|kv d']]; reflexivity.
Qed.

Lemma groupby_match_returns_witness :
  Forall (fun fn => Re.search MATCH fn <> None) ex_fnames
  /\ exists d,
       _groupby_match ex_fnames false = Ok (Mapping d)
       /\ map fst d = first_seen_keys ex_fnames.
Proof.
  assert (H : Forall (fun fn => Re.search MATCH fn <> None) ex_fnames)
    by (repeat constructor; vm_compute; discriminate).
  split; [exact H|].
  destruct (groupby_match_returns ex_fnames H) as (d & H1 & H2 & _).
  exists d. split; [exact H1 | exact H2].
Defined.

(** C9: grouping no file names gives the empty mapping, whatever the
    single-group flag. *)
Theorem groupby_match_empty (return_single : bool) :
  _groupby_match [] return_single = Ok (Mapping []).
Proof. destruct return_single; reflexivity. Qed.

(** A list with a name in which the pattern finds no stretch of the form
    [source-.._desc-.._space-.._(den|res)-.._] is not grouped at all: the
    call raises, whatever the other names and the flag. *)
Lemma groupby_match_raises (fnames : list string) (return_single : bool) :
  Exists (fun fn => forall gs, ~ holds_match fn gs) fnames ->
  _groupby_match fnames return_single = Raise AttributeError.
Proof.
  intros H. unfold _groupby_match. rewrite group_loop_raises; [reflexivity|].
  apply Exists_exists in H as (fn & Hin & Hno).
  apply Exists_exists. exists fn. split; [exact Hin|].
  destruct (Re.search MATCH fn) as [gs|] eqn:E; [|reflexivity].
  exfalso. exact (Hno gs (search_MATCH_holds _ _ E)).
Qed.

(** C4, at the input where the code leaves the claim: the class [[k|m]] of
    the pattern takes the bar as a unit letter, so a name whose density is
    "10|" is given a key and grouped instead of being refused; the same name
    without the closing underscore is refused. *)
Theorem groupby_match_accepts_bar :
  _groupby_match ["source-a_desc-b_space-c_den-10|_feature.func.gii"] false
    = Ok (Mapping [(["a"; "b"; "c"; "10|"],
                    One "source-a_desc-b_space-c_den-10|_feature.func.gii")])
  /\ _groupby_match ["source-a_desc-b_space-c_den-10k"] false = Raise AttributeError.
Proof. split; vm_compute; reflexivity. Qed.

End Grouping.

(** ** The predicate matcher *)

Section Matcher.

Implicit Types (dset kwargs : dict) (info : list dict) (key : string).

Lemma match_annot_filter info kwargs :
  _match_annot info kwargs = List.filter (includes kwargs) info.
Proof. reflexivity. Qed.

Lemma in_match_annot info kwargs dset :
  In dset (_match_annot info kwargs) <-> In dset info /\ includes kwargs dset = true.
Proof. rewrite match_annot_filter. apply filter_In. Qed.

(** [match] only ever goes from true to false: a turn of the loop is a
    conjunction with the check of its key. *)
Lemma check_key_and dset kwargs mtch key :
  check_key dset kwargs mtch key = mtch && key_ok dset kwargs key.
Proof.
  unfold key_ok, check_key.
  destruct (get kwargs key) as [|v|vs], (is_None (get dset key)), mtch;
    simpl; try reflexivity.
  all: destruct (negb (String.eqb v "all")); reflexivity.
Qed.

Lemma fold_check_keys dset kwargs :
  fold_left (check_key dset kwargs) match_keys true =
    key_ok dset kwargs "source" && key_ok dset kwargs "desc"
    && key_ok dset kwargs "space" && key_ok dset kwargs "hemi"
    && key_ok dset kwargs "tags" && key_ok dset kwargs "format".
Proof.
  simpl. rewrite !(check_key_and _ _ (check_key _ _ _ _)).
  rewrite (check_key_and _ _ true "source"). reflexivity.
Qed.

Lemma includes_split kwargs dset :
  includes kwargs dset =
    attrs_ok kwargs dset
    && (Nat.eqb (List.length (denres_of (normalize_tags kwargs))) 0
        || denres_ok (denres_of (normalize_tags kwargs)) dset).
Proof.
  unfold includes, dset_matches, attrs_ok, denres_ok.
  destruct (denres_of (normalize_tags kwargs)); simpl.
  - now rewrite andb_true_r.
  - reflexivity.
Qed.

(** Reading the keyword arguments after [tags] was made a list. *)
Lemma get_normalize_ne kwargs key :
  key <> "tags" -> get (normalize_tags kwargs) key = get kwargs key.
Proof.
  intros Hne. unfold normalize_tags.
  destruct (get kwargs "tags"); try reflexivity.
  unfold get. now rewrite lookup_insert_ne.
Qed.

Lemma get_normalize_tags kwargs :
  get (normalize_tags kwargs) "tags" =
    match get kwargs "tags" with
    | PyStr t => PyList [t]
    | v => v
    end.
Proof.
  unfold normalize_tags.
  destruct (get kwargs "tags") eqn:E; try exact E.
  unfold get. now rewrite lookup_insert_eq.
Qed.

Lemma get_singleton_eq key (v : pyval) : get {[ key := v ]} key = v.
Proof. unfold get. now rewrite lookup_singleton_eq. Qed.

Lemma get_singleton_ne key key' (v : pyval) :
  key <> key' -> get {[ key := v ]} key' = PyNone.
Proof. intros. unfold get. now rewrite lookup_singleton_ne. Qed.

Lemma get_empty key : get ∅ key = PyNone.
Proof. reflexivity. Qed.

Lemma denres_of_values kwargs :
  denres_of kwargs = values_of (get kwargs "den") ++ values_of (get kwargs "res").
Proof.
  unfold denres_of. simpl.
  destruct (get kwargs "den"), (get kwargs "res"); simpl;
    rewrite ?app_nil_r; reflexivity.
Qed.

Lemma denres_of_normalize kwargs :
  denres_of (normalize_tags kwargs) = denres_of kwargs.
Proof.
  unfold denres_of. now rewrite !get_normalize_ne by discriminate.
Qed.

Lemma filter_ext_all {A} (f g : A -> bool) (l : list A) :
  (forall a, f a = g a) -> List.filter f l = List.filter g l.
Proof. intros H. apply List.filter_ext. exact H. Qed.

(** Reads the keyword arguments of a goal. *)
Ltac read_kwargs :=
  repeat first
    [ rewrite get_normalize_tags
    | rewrite get_normalize_ne by discriminate
    | rewrite get_singleton_eq
    | rewrite get_singleton_ne by discriminate
    | rewrite get_empty ].

(** Unfolds [includes] into the checks of the six keys and of the pool. *)
Ltac split_includes :=
  rewrite includes_split; unfold attrs_ok; rewrite fold_check_keys;
  rewrite denres_of_normalize, denres_of_values;
  unfold key_ok, check_key.

(** A list constraint on [tags] alone: every requested tag must be in the
    record's value. *)
Lemma tags_list_constraint info (vs : list string) :
  _match_annot info {[ "tags" := PyList vs ]} =
    List.filter
      (fun dset => has_value "tags" dset
                   && forallb (fun f => py_in f (get dset "tags")) vs) info.
Proof.
  rewrite match_annot_filter. apply filter_ext_all. intros dset.
  split_includes. read_kwargs. unfold has_value. simpl.
  destruct (is_None (get dset "tags")); simpl; now rewrite ?andb_true_r.
Qed.

(** A list constraint on one of the other attributes alone: some requested
    value must be [in] the record's value. *)
Lemma scalar_list_constraint info key (vs : list string) :
  In key scalar_keys ->
  _match_annot info {[ key := PyList vs ]} =
    List.filter
      (fun dset => has_value key dset
                   && existsb (fun f => py_in f (get dset key)) vs) info.
Proof.
  intros Hk. rewrite match_annot_filter. apply filter_ext_all. intros dset.
  unfold scalar_keys in Hk. simpl in Hk.
  destruct Hk as [<-|[<-|[<-|[<-|[<-|[]]]]]];
    split_includes; read_kwargs; unfold has_value; simpl;
    match goal with |- context [is_None ?c] => destruct (is_None c) end;
    simpl; now rewrite ?andb_true_r.
Qed.

Lemma get_insert_eq kwargs key (v : pyval) : get (<[ key := v ]> kwargs) key = v.
Proof. unfold get. now rewrite lookup_insert_eq. Qed.

Lemma get_insert_ne kwargs key key' (v : pyval) :
  key <> key' -> get (<[ key := v ]> kwargs) key' = get kwargs key'.
Proof. intros. unfold get. now rewrite lookup_insert_ne. Qed.

Lemma get_singleton_None key key' : get {[ key := PyNone ]} key' = PyNone.
Proof.
  destruct (decide (key = key')) as [->|Hne].
  - apply get_singleton_eq.
  - now apply get_singleton_ne.
Qed.

(** The check of a key reads nothing but the two values under that key. *)
Lemma key_ok_ext dset dset' kwargs kwargs' key :
  get dset key = get dset' key -> get kwargs key = get kwargs' key ->
  key_ok dset kwargs key = key_ok dset' kwargs' key.
Proof. intros Hd Hk. unfold key_ok, check_key. now rewrite Hd, Hk. Qed.

(** An unset constraint passes whatever the record holds. *)
Lemma key_ok_None dset kwargs key :
  get kwargs key = PyNone -> key_ok dset kwargs key = true.
Proof. intros Hk. unfold key_ok, check_key. now rewrite Hk. Qed.

(** The wildcard asks for a value, whatever it is. *)
Lemma key_ok_all dset kwargs key :
  get kwargs key = PyStr "all" -> key_ok dset kwargs key = has_value key dset.
Proof.
  intros Hk. unfold key_ok, check_key, has_value. rewrite Hk.
  now destruct (is_None (get dset key)).
Qed.

Lemma includes_keys kwargs dset :
  includes kwargs dset =
    key_ok dset (normalize_tags kwargs) "source"
    && key_ok dset (normalize_tags kwargs) "desc"
    && key_ok dset (normalize_tags kwargs) "space"
    && key_ok dset (normalize_tags kwargs) "hemi"
    && key_ok dset (normalize_tags kwargs) "tags"
    && key_ok dset (normalize_tags kwargs) "format"
    && (Nat.eqb (List.length (denres_of kwargs)) 0
        || denres_ok (denres_of kwargs) dset).
Proof.
  rewrite includes_split. unfold attrs_ok.
  now rewrite fold_check_keys, denres_of_normalize.
Qed.

(** Setting a key other than [tags] leaves the other keys as they read. *)
Lemma get_normalize_insert kwargs key key' (v : pyval) :
  key <> "tags" -> key <> key' ->
  get (normalize_tags (<[ key := v ]> kwargs)) key' = get (normalize_tags kwargs) key'.
Proof.
  intros Ht Hne. destruct (decide (key' = "tags")) as [->|Hk'].
  - rewrite !get_normalize_tags. now rewrite get_insert_ne.
  - rewrite !get_normalize_ne by done. now apply get_insert_ne.
Qed.

Lemma denres_of_insert kwargs key (v : pyval) :
  key <> "den" -> key <> "res" ->
  denres_of (<[ key := v ]> kwargs) = denres_of kwargs.
Proof. intros. unfold denres_of. now rewrite !get_insert_ne. Qed.

(** The wildcard on a scalar attribute adds the presence test to whatever
    the other constraints ask. *)
Lemma wildcard_adds_presence kwargs key dset :
  In key scalar_keys -> get kwargs key = PyStr "all" ->
  includes kwargs dset =
    has_value key dset && includes (<[ key := PyNone ]> kwargs) dset.
Proof.
  intros Hk Hall. rewrite !includes_keys.
  assert (Hself : key_ok dset (normalize_tags kwargs) key = has_value key dset).
  { apply key_ok_all.
    unfold scalar_keys in Hk; simpl in Hk.
    destruct Hk as [<-|[<-|[<-|[<-|[<-|[]]]]]];
      now rewrite get_normalize_ne by discriminate. }
  assert (Hnew : key_ok dset (normalize_tags (<[ key := PyNone ]> kwargs)) key = true).
  { apply key_ok_None.
    unfold scalar_keys in Hk; simpl in Hk.
    destruct Hk as [<-|[<-|[<-|[<-|[<-|[]]]]]];
      rewrite get_normalize_ne by discriminate; apply get_insert_eq. }
  assert (Hoth : forall key', key <> key' ->
            key_ok dset (normalize_tags (<[ key := PyNone ]> kwargs)) key'
            = key_ok dset (normalize_tags kwargs) key').
  { intros key' Hne. apply key_ok_ext; [reflexivity|].
    apply get_normalize_insert; [|exact Hne].
    unfold scalar_keys in Hk; simpl in Hk.
    destruct Hk as [<-|[<-|[<-|[<-|[<-|[]]]]]]; discriminate. }
  assert (Hpool : denres_of (<[ key := PyNone ]> kwargs) = denres_of kwargs).
  { unfold scalar_keys in Hk; simpl in Hk.
    destruct Hk as [<-|[<-|[<-|[<-|[<-|[]]]]]];
      apply denres_of_insert; discriminate. }
  rewrite Hpool.
  set (D := Nat.eqb _ 0 || _).
  unfold scalar_keys in Hk; simpl in Hk.
  destruct Hk as [<-|[<-|[<-|[<-|[<-|[]]]]]];
    rewrite Hself, Hnew, !Hoth by discriminate;
    destruct (has_value _ dset); simpl; rewrite ?andb_true_r, ?andb_false_r;
    reflexivity.
Qed.

(** C1, at the input where the code leaves the claim: a list constraint on
    [source] is a substring test.  The record's source is "abc2020"; it equals
    no requested value, yet the one-element list ["abc"] selects it, while the
    bare string "abc" (the equality branch) does not. *)
Theorem list_constraint_is_substring_test :
  get ex_abc2020 "source" = PyStr "abc2020"
  /\ _match_annot [ex_abc2020] {[ "source" := PyList ["abc"] ]} = [ex_abc2020]
  /\ _match_annot [ex_abc2020] {[ "source" := PyStr "abc" ]} = [].
Proof. repeat split; vm_compute; reflexivity. Qed.

(** C2, counterexample: the bare string "all" under [tags] is no wildcard.
    The record has tags, and is not returned. *)
Lemma wildcard_on_tags_counterexample :
  has_value "tags" ex_abc2020 = true
  /\ List.filter (has_value "tags") [ex_abc2020] = [ex_abc2020]
  /\ _match_annot [ex_abc2020] {[ "tags" := PyStr "all" ]} = [].
Proof. repeat split; vm_compute; reflexivity. Qed.

(** C2 (amended): for each of [source], [desc], [space], [hemi] and
    [format], matching with the single string "all" under that attribute
    alone returns exactly the records that have a value for it, in catalog
    order, and next to other constraints it adds exactly that presence test;
    under [tags] the string is first made the list ["all"] and asks for a tag
    of that name.  A constraint that is [None] under one of the six attributes
    leaves the catalog unfiltered on it: the value a record holds there does
    not change whether it is kept, and with nothing else set the whole catalog
    is returned. *)
Theorem wildcard_all_and_unset (info : list dict) :
  (forall key, In key scalar_keys ->
     _match_annot info {[ key := PyStr "all" ]} = List.filter (has_value key) info)
  /\ (forall key kwargs dset, In key scalar_keys -> get kwargs key = PyStr "all" ->
        includes kwargs dset =
          has_value key dset && includes (<[ key := PyNone ]> kwargs) dset)
  /\ _match_annot info {[ "tags" := PyStr "all" ]} =
       _match_annot info {[ "tags" := PyList ["all"] ]}
  /\ (forall key kwargs dset v, In key match_keys -> get kwargs key = PyNone ->
        includes kwargs (<[ key := v ]> dset) = includes kwargs dset)
  /\ (forall key, _match_annot info {[ key := PyNone ]} = info).
Proof.
  split; [|split; [|split; [|split]]].
  - intros key Hk. rewrite match_annot_filter. apply filter_ext_all. intros dset.
    unfold scalar_keys in Hk; simpl in Hk.
    destruct Hk as [<-|[<-|[<-|[<-|[<-|[]]]]]];
      split_includes; read_kwargs; unfold has_value; simpl;
      match goal with |- context [is_None ?c] => destruct (is_None c) end;
      reflexivity.
  - intros key kwargs dset. apply wildcard_adds_presence.
  - rewrite !match_annot_filter. apply filter_ext_all. intros dset.
    unfold includes.
    assert (Hn : normalize_tags {[ "tags" := PyStr "all" ]}
                 = normalize_tags {[ "tags" := PyList ["all"] ]}).
    { unfold normalize_tags. rewrite !get_singleton_eq.
      apply insert_singleton_eq. }
    now rewrite Hn.
  - intros key kwargs dset v Hk Hnone.
    rewrite !includes_keys.
    assert (Hkey : key_ok (<[ key := v ]> dset) (normalize_tags kwargs) key
                   = key_ok dset (normalize_tags kwargs) key).
    { rewrite !key_ok_None; try reflexivity.
      all: destruct (decide (key = "tags")) as [->|Hne];
        [ rewrite get_normalize_tags; now rewrite Hnone
        | now rewrite get_normalize_ne ]. }
    assert (Hoth : forall key', key <> key' ->
              key_ok (<[ key := v ]> dset) (normalize_tags kwargs) key'
              = key_ok dset (normalize_tags kwargs) key').
    { intros key' Hne. apply key_ok_ext; [|reflexivity]. now apply get_insert_ne. }
    assert (Hpool : denres_ok (denres_of kwargs) (<[ key := v ]> dset)
                    = denres_ok (denres_of kwargs) dset).
    { unfold denres_ok. simpl in Hk.
      destruct Hk as [<-|[<-|[<-|[<-|[<-|[<-|[]]]]]]];
        now rewrite !get_insert_ne by discriminate. }
    rewrite Hpool. simpl in Hk.
    destruct Hk as [<-|[<-|[<-|[<-|[<-|[<-|[]]]]]]];
      rewrite Hkey, !Hoth by discriminate; reflexivity.
  - intros key. rewrite match_annot_filter.
    rewrite (filter_ext_all _ (fun _ => true)).
    + induction info as [|d l IH]; simpl; [reflexivity | now rewrite IH].
    + intros dset. unfold includes.
      replace (normalize_tags {[ key := PyNone ]}) with ({[ key := PyNone ]} : dict)
        by (unfold normalize_tags; now rewrite get_singleton_None).
      unfold dset_matches. rewrite fold_check_keys, denres_of_values.
      unfold key_ok, check_key. now rewrite !get_singleton_None.
Qed.

Lemma wildcard_all_and_unset_witness :
  In "hemi" scalar_keys
  /\ _match_annot [ex_abc2020; ex_vol] {[ "hemi" := PyStr "all" ]}
     = List.filter (has_value "hemi") [ex_abc2020; ex_vol].
Proof.
  assert (H : In "hemi" scalar_keys) by (simpl; tauto).
  split; [exact H|].
  exact (proj1 (wildcard_all_and_unset [ex_abc2020; ex_vol]) "hemi" H).
Defined.

Lemma mem_In (f : string) (l : list string) : mem f l = true <-> In f l.
Proof.
  unfold mem. rewrite existsb_exists. split.
  - intros (x & Hx & He). apply String.eqb_eq in He. now subst.
  - intros H. exists f. split; [exact H | apply String.eqb_refl].
Qed.

Lemma values_of_supplied (c : pyval) (v : string) :
  In v (values_of c) <-> supplied_by c v.
Proof.
  unfold supplied_by. destruct c as [|s|l]; simpl.
  - split; [tauto|]. intros [H|(l & H & _)]; discriminate.
  - split.
    + intros [->|[]]. now left.
    + intros [H|(l & H & _)]; [injection H as ->; now left | discriminate].
  - split.
    + intros H. right. now exists l.
    + intros [H|(l' & H & Hin)]; [discriminate | now injection H as ->].
Qed.

Lemma in_strs_In (x : pyval) (l : list string) :
  in_strs x l = true <-> exists v, x = PyStr v /\ In v l.
Proof.
  destruct x as [|s|l']; simpl.
  - split; [discriminate | intros (v & H & _); discriminate].
  - rewrite mem_In. split.
    + intros H. now exists s.
    + intros (v & H & Hin). now injection H as ->.
  - split; [discriminate | intros (v & H & _); discriminate].
Qed.

Lemma py_or_str (a b : pyval) (v : string) :
  py_or a b = PyStr v -> a = PyStr v \/ b = PyStr v.
Proof. unfold py_or. destruct (truthy a); auto. Qed.

(** C3: the values given under [den] and under [res] are pooled; when the
    pool is not empty a record is kept only if its own den-or-res value, the
    one that is set, is in the pool; and when neither [den] nor [res] is
    given the pool is empty and nothing is filtered on resolution: the
    result is the catalog filtered by the six attributes alone. *)
Theorem denres_pool (info : list dict) (kwargs : dict) :
  let pool := denres_of (normalize_tags kwargs) in
  (forall v, In v pool <->
     supplied_by (get kwargs "den") v \/ supplied_by (get kwargs "res") v)
  /\ (pool <> [] ->
      forall dset, In dset (_match_annot info kwargs) ->
        exists v, py_or (get dset "den") (get dset "res") = PyStr v
                  /\ (get dset "den" = PyStr v \/ get dset "res" = PyStr v)
                  /\ In v pool)
  /\ (forall dset, In dset (_match_annot info kwargs) <->
        In dset info /\ attrs_ok kwargs dset = true
        /\ (pool = [] \/ denres_ok pool dset = true))
  /\ (get kwargs "den" = PyNone -> get kwargs "res" = PyNone ->
      pool = [] /\ _match_annot info kwargs = List.filter (attrs_ok kwargs) info).
Proof.
  intros pool.
  assert (Hin : forall dset, In dset (_match_annot info kwargs) <->
            In dset info /\ attrs_ok kwargs dset = true
            /\ (pool = [] \/ denres_ok pool dset = true)).
  { intros dset. rewrite in_match_annot, includes_split. fold pool.
    rewrite andb_true_iff, orb_true_iff, Nat.eqb_eq.
    destruct pool; simpl; intuition (discriminate || auto). }
  split; [|split; [|split]].
  - intros v. subst pool. rewrite denres_of_normalize, denres_of_values.
    now rewrite in_app_iff, !values_of_supplied.
  - intros Hne dset Hd. apply Hin in Hd as (_ & _ & [He|Hok]); [contradiction|].
    apply in_strs_In in Hok as (v & Hv & Hp).
    exists v. split; [exact Hv|]. split; [now apply py_or_str | exact Hp].
  - exact Hin.
  - intros Hden Hres.
    assert (Hp : pool = []).
    { subst pool. rewrite denres_of_normalize, denres_of_values.
      now rewrite Hden, Hres. }
    split; [exact Hp|].
    rewrite match_annot_filter. apply filter_ext_all. intros dset.
    rewrite includes_split. fold pool. rewrite Hp. simpl. apply andb_true_r.
Qed.

Lemma denres_pool_witness :
  denres_of (normalize_tags {[ "den" := PyStr "10k"; "res" := PyList ["1mm"; "2mm"] ]})
    <> []
  /\ (forall dset,
       In dset (_match_annot [ex_abc2020; ex_vol]
                  {[ "den" := PyStr "10k"; "res" := PyList ["1mm"; "2mm"] ]}) ->
       exists v, py_or (get dset "den") (get dset "res") = PyStr v
                 /\ (get dset "den" = PyStr v \/ get dset "res" = PyStr v)
                 /\ In v (denres_of (normalize_tags
                            {[ "den" := PyStr "10k"; "res" := PyList ["1mm"; "2mm"] ]}))).
Proof.
  assert (H : denres_of (normalize_tags
                {[ "den" := PyStr "10k"; "res" := PyList ["1mm"; "2mm"] ]}) <> [])
    by (vm_compute; discriminate).
  split; [exact H|].
  exact (proj1 (proj2 (denres_pool [ex_abc2020; ex_vol]
                         {[ "den" := PyStr "10k"; "res" := PyList ["1mm"; "2mm"] ]})) H).
Defined.

End Matcher.

(** ** Fetching *)

Section Fetch.

Implicit Types (w : World) (info : list dict).

(** C5: a call with every constraint [None] raises [ValueError] and leaves
    the world as it was: nothing is looked up, checked, downloaded or
    logged. *)
Theorem fetch_annotation_rejects_empty_query
    (return_single : bool) (token data_dir : pyval) (verbose : Z) (w : World) :
  fetch_annotation PyNone PyNone PyNone PyNone PyNone PyNone PyNone PyNone
                   return_single token data_dir verbose w
  = (Raise ValueError, w).
Proof. reflexivity. Qed.

(** A call with a constraint set opens with the three look-ups and goes on
    with the records matched in the visible part of the catalog. *)
Lemma fetch_annotation_run source desc space den res hemi tags format
    return_single token data_dir verbose w :
  existsb (fun val => negb (is_None val))
          [source; desc; space; den; res; hemi; tags; format] = true ->
  fetch_annotation source desc space den res hemi tags format
                   return_single token data_dir verbose w
  = let tok := resolved_token token w in
    match resolved_data_dir data_dir w with
    | Raise e =>
        (Raise e, with_log w (log w ++ [CallGetToken token; CallGetDataDir data_dir]))
    | Ok dd =>
        let w' := with_log w (log w ++ lookups token data_dir (return_restricted_of tok)) in
        match dataset_info "annotations" (return_restricted_of tok) w with
        | Raise e => (Raise e, w')
        | Ok all_info =>
            fetch_matched
              (_match_annot all_info
                 (kwargs_of source desc space den res hemi tags format))
              dd tok return_single verbose w'
        end
    end.
Proof.
  intros Hs. unfold fetch_annotation. rewrite Hs. simpl negb. cbv iota.
  unfold bind at 1. unfold _get_token, bind, emit, reads, get_data_dir,
    get_dataset_info. simpl.
  unfold resolved_data_dir, dataset_info, lookups. simpl.
  destruct data_dir as [|d|l]; simpl; rewrite <- ?app_assoc; simpl;
    try reflexivity.
  all: destruct (catalog w !! "annotations"); simpl; rewrite <- ?app_assoc;
    reflexivity.
Qed.

(** C10: a resolved token that is false as a truth value (the empty
    string) is treated like [None]: the visibility flag is the one of the
    no-credentials case, and the records matched, then fetched, are those of
    the catalog without its restricted entries. *)
Theorem falsy_token_hides_restricted source desc space den res hemi tags format
    return_single token data_dir verbose w dd es :
  existsb (fun val => negb (is_None val))
          [source; desc; space; den; res; hemi; tags; format] = true ->
  truthy (resolved_token token w) = false ->
  resolved_data_dir data_dir w = Ok dd ->
  catalog w !! "annotations" = Some es ->
  let kwargs := kwargs_of source desc space den res hemi tags format in
  let public := map record (List.filter (fun e => negb (restricted e)) es) in
  return_restricted_of (resolved_token token w) = return_restricted_of PyNone
  /\ matched_records kwargs token w = _match_annot public kwargs
  /\ fetch_annotation source desc space den res hemi tags format
                      return_single token data_dir verbose w
     = fetch_matched (_match_annot public kwargs) dd (resolved_token token w)
                     return_single verbose
                     (with_log w (log w ++ lookups token data_dir false)).
Proof.
  intros Hs Hf Hd He kwargs public.
  assert (Hrr : return_restricted_of (resolved_token token w) = false).
  { unfold return_restricted_of. rewrite Hf. simpl. now rewrite orb_true_r. }
  assert (Hinfo : dataset_info "annotations" false w = Ok public).
  { unfold dataset_info. rewrite He. reflexivity. }
  split; [exact Hrr|]. split.
  - unfold matched_records. now rewrite Hrr, Hinfo.
  - rewrite fetch_annotation_run by exact Hs.
    cbv zeta. now rewrite Hd, Hrr, Hinfo.
Qed.

Lemma falsy_token_hides_restricted_witness :
  truthy (resolved_token PyNone ex_world) = false
  /\ matched_records
       (kwargs_of PyNone (PyStr "density") PyNone PyNone PyNone PyNone PyNone PyNone)
       PyNone ex_world
     = [ex_abc2020; ex_abc2020_R].
Proof.
  split; [reflexivity|].
  etransitivity.
  - exact (proj1 (proj2 (falsy_token_hides_restricted
             PyNone (PyStr "density") PyNone PyNone PyNone PyNone PyNone PyNone
             true PyNone PyNone 1%Z ex_world "~/neuromaps-data"
             [mkEntry false ex_abc2020; mkEntry true ex_private;
              mkEntry false ex_abc2020_R]
             eq_refl eq_refl eq_refl eq_refl))).
  - vm_compute. reflexivity.
Defined.

(** *** Computations that touch files and log only *)

Lemma same_setting_refl w : same_setting w w.
Proof. repeat split. Qed.

Lemma same_setting_trans w1 w2 w3 :
  same_setting w1 w2 -> same_setting w2 w3 -> same_setting w1 w3.
Proof.
  intros (A1 & B1 & C1 & D1) (A2 & B2 & C2 & D2).
  repeat split; congruence.
Qed.

Lemma frames_ret {A} (a : A) : frames (ret a).
Proof. intros w r w' [= <- <-]. apply same_setting_refl. Qed.

Lemma frames_lift {A} (r : result A) : frames (lift r).
Proof. intros w r' w' [= <- <-]. apply same_setting_refl. Qed.

Lemma frames_emit e : frames (emit e).
Proof. intros w r w' [= <- <-]. repeat split. Qed.

Lemma frames_reads {A} (f : World -> A) : frames (reads f).
Proof. intros w r w' [= <- <-]. apply same_setting_refl. Qed.

Lemma frames_bind {A B} (m : M A) (f : A -> M B) :
  frames m -> (forall a, frames (f a)) -> frames (bind m f).
Proof.
  intros Hm Hf w r w' H. unfold bind in H.
  destruct (m w) as [[a|e] w1] eqn:E.
  - eapply same_setting_trans; [exact (Hm _ _ _ E) | exact (Hf _ _ _ _ H)].
  - injection H as <- <-. exact (Hm _ _ _ E).
Qed.

Lemma frames_path_exists p : frames (path_exists p).
Proof. apply frames_bind; [apply frames_emit | intros; apply frames_reads]. Qed.

Lemma frames_shutil_move src dst : frames (shutil_move src dst).
Proof.
  apply frames_bind; [apply frames_emit|]. intros _ w r w' H.
  destruct (bool_decide (src ∈ files w)); injection H as <- <-; repeat split.
Qed.

Lemma frames_fetch_file url dir verbose md5sum session :
  frames (_fetch_file url dir verbose md5sum session).
Proof.
  apply frames_bind; [apply frames_emit|]. intros _.
  apply frames_bind; [apply frames_lift|]. intros u w r w' H.
  destruct (remote w u session) as [sum|]; [|injection H as <- <-; repeat split].
  destruct (is_None md5sum || py_eq md5sum (PyStr sum));
    injection H as <- <-; repeat split.
Qed.

Lemma frames_fetch_files data_dir verbose session info data :
  frames (fetch_files data_dir verbose session info data).
Proof.
  revert data. induction info as [|dset rest IH]; intros data; simpl.
  - apply frames_ret.
  - apply frames_bind; [apply frames_lift|]. intros fn.
    apply frames_bind; [apply frames_path_exists|]. intros there.
    apply frames_bind; [|intros; apply IH].
    destruct (negb there); [|apply frames_ret].
    apply frames_bind; [apply frames_lift|]. intros url.
    apply frames_bind; [apply frames_lift|]. intros checksum.
    apply frames_bind; [apply frames_fetch_file|]. intros dl_file.
    apply frames_shutil_move.
Qed.

Lemma frames_fetch_matched info data_dir token return_single verbose :
  frames (fetch_matched info data_dir token return_single verbose).
Proof.
  unfold fetch_matched.
  apply frames_bind.
  { destruct (1 <? verbose)%Z; [apply frames_emit | apply frames_ret]. }
  intros _. apply frames_bind.
  { apply frames_bind; [apply frames_emit | intros; apply frames_ret]. }
  intros session. apply frames_bind; [apply frames_fetch_files|].
  intros data. apply frames_bind; [apply frames_lift|].
  intros warn. apply frames_bind; [|intros; apply frames_lift].
  destruct (any warn); [apply frames_emit | apply frames_ret].
Qed.

(** *** The loop over the matched records *)

Lemma bind_Ok_inv {A B} (m : M A) (f : A -> M B) w b w' :
  bind m f w = (Ok b, w') ->
  exists a w1, m w = (Ok a, w1) /\ f a w1 = (Ok b, w').
Proof.
  unfold bind. destruct (m w) as [[a|e] w1]; [|discriminate].
  intros H. now exists a, w1.
Qed.

Lemma bind_Ok_step {A B} (m : M A) (f : A -> M B) w a w1 :
  m w = (Ok a, w1) -> bind m f w = f a w1.
Proof. intros H. unfold bind. now rewrite H. Qed.

Lemma path_exists_there (p : path) w :
  str p ∈ files w ->
  path_exists p w = (Ok true, with_log w (log w ++ [CallExists (str p)])).
Proof.
  intros H. unfold path_exists, bind, emit, reads. simpl.
  now rewrite bool_decide_eq_true_2.
Qed.

Lemma lift_Ok_inv {A} (r : result A) w a w' :
  lift r w = (Ok a, w') -> r = Ok a /\ w' = w.
Proof. unfold lift. intros [= -> <-]. now split. Qed.

(** A loop that ends well has appended the expected paths, in order. *)
Lemma fetch_files_data data_dir verbose session info data w data' w' :
  fetch_files data_dir verbose session info data w = (Ok data', w') ->
  exists ps, expected_paths data_dir info = Ok ps /\ data' = data ++ map str ps.
Proof.
  revert data w. induction info as [|dset rest IH]; intros data w H; simpl in H.
  - injection H as <- <-. exists []. simpl. now rewrite app_nil_r.
  - apply bind_Ok_inv in H as (fn & w1 & Hfn & H).
    apply lift_Ok_inv in Hfn as [Hfn ->].
    apply bind_Ok_inv in H as (there & w2 & _ & H).
    apply bind_Ok_inv in H as (u & w3 & _ & H).
    apply IH in H as (ps & Hps & ->).
    exists (fn :: ps). simpl. rewrite Hfn, Hps. simpl.
    now rewrite <- app_assoc.
Qed.

(** With every expected path in place the loop checks each one and fetches
    nothing. *)
Lemma fetch_files_cached data_dir verbose session info data w ps :
  expected_paths data_dir info = Ok ps ->
  (forall p, In p ps -> str p ∈ files w) ->
  fetch_files data_dir verbose session info data w
  = (Ok (data ++ map str ps),
     with_log w (log w ++ map (fun p => CallExists (str p)) ps)).
Proof.
  revert data w ps. induction info as [|dset rest IH]; intros data w ps Hps Hin;
    simpl in Hps.
  - injection Hps as <-. simpl. rewrite !app_nil_r. now destruct w.
  - destruct (expected_path data_dir dset) as [fn|e] eqn:Hfn; [|discriminate].
    simpl in Hps.
    destruct (expected_paths data_dir rest) as [fns|e] eqn:Hrest; [|discriminate].
    injection Hps as <-.
    simpl. rewrite Hfn.
    rewrite (bind_Ok_step _ _ w fn w) by reflexivity.
    rewrite (bind_Ok_step _ _ w true _ (path_exists_there fn w (Hin fn (or_introl eq_refl)))).
    simpl negb. cbv iota.
    rewrite (bind_Ok_step _ _ _ tt _ eq_refl).
    rewrite (IH _ _ fns eq_refl).
    + simpl. now rewrite <- !app_assoc.
    + intros p Hp. simpl. apply Hin. now right.
Qed.

Lemma expected_paths_In data_dir info ps p :
  expected_paths data_dir info = Ok ps -> In p ps ->
  exists dset, In dset info /\ expected_path data_dir dset = Ok p.
Proof.
  revert ps. induction info as [|dset rest IH]; intros ps H Hp; simpl in H.
  - injection H as <-. destruct Hp.
  - destruct (expected_path data_dir dset) as [fn|e] eqn:Hfn; [|discriminate].
    simpl in H.
    destruct (expected_paths data_dir rest) as [fns|e] eqn:Hrest; [|discriminate].
    injection H as <-. destruct Hp as [<-|Hp].
    + exists dset. split; [now left | exact Hfn].
    + destruct (IH _ eq_refl Hp) as (d & Hd & Hpd).
      exists d. split; [now right | exact Hpd].
Qed.

Lemma no_fetch_in_exists (ps : list path) :
  List.filter is_fetch_call (map (fun p => CallExists (str p)) ps) = [].
Proof. induction ps as [|p ps IH]; simpl; [reflexivity | exact IH]. Qed.

(** What a successful run of the remainder says about its inputs. *)
Lemma fetch_matched_Ok_inv info data_dir token return_single verbose w r w' :
  fetch_matched info data_dir token return_single verbose w = (Ok r, w') ->
  exists ps warn,
    expected_paths data_dir info = Ok ps
    /\ caveats info = Ok warn
    /\ _groupby_match (map str ps) return_single = Ok r.
Proof.
  unfold fetch_matched. intros H.
  apply bind_Ok_inv in H as (u & w1 & _ & H).
  apply bind_Ok_inv in H as (session & w2 & _ & H).
  apply bind_Ok_inv in H as (data & w3 & Hdata & H).
  apply bind_Ok_inv in H as (warn & w4 & Hwarn & H).
  apply bind_Ok_inv in H as (u' & w5 & _ & H).
  apply lift_Ok_inv in Hwarn as [Hwarn ->].
  apply lift_Ok_inv in H as [H ->].
  apply fetch_files_data in Hdata as (ps & Hps & ->).
  exists ps, warn. now repeat split.
Qed.

(** With every expected path in place the remainder fetches nothing,
    creates nothing and returns the grouping of the expected paths. *)
Lemma fetch_matched_cached info data_dir token return_single verbose w ps warn r :
  expected_paths data_dir info = Ok ps ->
  (forall p, In p ps -> str p ∈ files w) ->
  caveats info = Ok warn ->
  _groupby_match (map str ps) return_single = Ok r ->
  exists w',
    fetch_matched info data_dir token return_single verbose w = (Ok r, w')
    /\ files w' = files w
    /\ fetch_calls (log w') = fetch_calls (log w).
Proof.
  intros Hps Hin Hwarn Hr. unfold fetch_matched.
  set (w1 := if (1 <? verbose)%Z
             then with_log w (log w ++ [CallPrint (List.length info)]) else w).
  set (w2 := with_log w1 (log w1 ++ [CallGetSession token])).
  set (w3 := with_log w2 (log w2 ++ map (fun p => CallExists (str p)) ps)).
  set (w4 := if any warn then with_log w3 (log w3 ++ [CallWarn BestInFsaverage])
             else w3).
  assert (F1 : files w1 = files w /\ fetch_calls (log w1) = fetch_calls (log w)).
  { unfold w1. destruct (1 <? verbose)%Z; [|now split]. simpl. split; [reflexivity|].
    unfold fetch_calls. rewrite List.filter_app. simpl. now rewrite app_nil_r. }
  assert (F2 : files w2 = files w /\ fetch_calls (log w2) = fetch_calls (log w)).
  { unfold w2. simpl. split; [apply F1|].
    unfold fetch_calls. rewrite List.filter_app. simpl. rewrite app_nil_r.
    apply F1. }
  assert (F3 : files w3 = files w /\ fetch_calls (log w3) = fetch_calls (log w)).
  { unfold w3. simpl. split; [apply F2|].
    unfold fetch_calls. rewrite List.filter_app, no_fetch_in_exists, app_nil_r.
    apply F2. }
  assert (F4 : files w4 = files w /\ fetch_calls (log w4) = fetch_calls (log w)).
  { unfold w4. destruct (any warn); [|exact F3]. simpl. split; [apply F3|].
    unfold fetch_calls. rewrite List.filter_app. simpl. rewrite app_nil_r.
    apply F3. }
  exists w4. split; [|exact F4].
  assert (E1 : (if (1 <? verbose)%Z then emit (CallPrint (List.length info))
                else ret tt) w = (Ok tt, w1)).
  { unfold w1. now destruct (1 <? verbose)%Z. }
  unfold bind at 1. rewrite E1.
  unfold bind at 1. unfold _get_session at 1. unfold bind at 1.
  unfold emit at 1. unfold ret at 1. fold w2.
  unfold bind at 1.
  rewrite (fetch_files_cached _ _ _ _ _ _ ps Hps)
    by (intros p Hp; destruct F2 as [-> _]; now apply Hin).
  fold w3. simpl app.
  unfold bind at 1. unfold lift at 1. rewrite Hwarn.
  unfold bind at 1.
  assert (E4 : (if any warn then emit (CallWarn BestInFsaverage) else ret tt) w3
               = (Ok tt, w4)).
  { unfold w4. now destruct (any warn). }
  rewrite E4. unfold lift. now rewrite Hr.
Qed.

Lemma same_setting_resolved w w' token data_dir name rr :
  same_setting w w' ->
  resolved_token token w' = resolved_token token w
  /\ resolved_data_dir data_dir w' = resolved_data_dir data_dir w
  /\ dataset_info name rr w' = dataset_info name rr w.
Proof.
  intros (He & Hc & _ & _).
  unfold resolved_token, resolved_data_dir, dataset_info.
  now rewrite He, Hc.
Qed.

(** C7: when a call has succeeded and every matched record's expected path
    exists, the same call made again invokes the fetch capability not once,
    creates and moves no file, and returns what the first call returned. *)
Theorem fetch_annotation_again_uses_cache
    source desc space den res hemi tags format
    return_single token data_dir verbose w0 r1 w1 :
  fetch_annotation source desc space den res hemi tags format
                   return_single token data_dir verbose w0 = (Ok r1, w1) ->
  (forall dd dset p,
      resolved_data_dir data_dir w1 = Ok dd ->
      In dset (matched_records
                 (kwargs_of source desc space den res hemi tags format) token w1) ->
      expected_path dd dset = Ok p ->
      str p ∈ files w1) ->
  exists w2,
    fetch_annotation source desc space den res hemi tags format
                     return_single token data_dir verbose w1 = (Ok r1, w2)
    /\ fetch_calls (log w2) = fetch_calls (log w1)
    /\ files w2 = files w1.
Proof.
  intros H1 Hcache.
  destruct (existsb (fun val => negb (is_None val))
              [source; desc; space; den; res; hemi; tags; format]) eqn:Hs.
  2: { unfold fetch_annotation in H1. rewrite Hs in H1. discriminate. }
  rewrite (fetch_annotation_run _ _ _ _ _ _ _ _ _ _ _ _ _ Hs) in H1.
  cbv zeta in H1.
  destruct (resolved_data_dir data_dir w0) as [dd|e] eqn:Hdd; [|discriminate].
  destruct (dataset_info "annotations"
              (return_restricted_of (resolved_token token w0)) w0)
    as [all_info|e] eqn:Hinfo; [|discriminate].
  set (info := _match_annot all_info
                 (kwargs_of source desc space den res hemi tags format)) in *.
  pose proof (frames_fetch_matched _ _ _ _ _ _ _ _ H1) as Hsame.
  assert (Hsame' : same_setting w0 w1).
  { destruct Hsame as (A & B & C & D). repeat split; assumption. }
  destruct (same_setting_resolved w0 w1 token data_dir "annotations"
              (return_restricted_of (resolved_token token w0)) Hsame')
    as (Htok & Hdir & Hcat).
  apply fetch_matched_Ok_inv in H1 as (ps & warn & Hps & Hwarn & Hr).
  assert (Hm : matched_records
                 (kwargs_of source desc space den res hemi tags format) token w1
               = info).
  { unfold matched_records. now rewrite Htok, Hcat, Hinfo. }
  set (w1' := with_log w1 (log w1 ++ lookups token data_dir
                             (return_restricted_of (resolved_token token w0)))).
  destruct (fetch_matched_cached info dd (resolved_token token w0)
              return_single verbose w1' ps warn r1 Hps) as (w2 & Hrun & Hf & Hc).
  - intros p Hp. simpl.
    destruct (expected_paths_In _ _ _ _ Hps Hp) as (dset & Hd & Hpd).
    apply (Hcache dd dset p); [now rewrite Hdir | now rewrite Hm | exact Hpd].
  - exact Hwarn.
  - exact Hr.
  - exists w2. split; [|split].
    + rewrite (fetch_annotation_run _ _ _ _ _ _ _ _ _ _ _ _ _ Hs).
      cbv zeta. rewrite Htok, Hdir, Hdd, Hcat, Hinfo. exact Hrun.
    + rewrite Hc. unfold w1', fetch_calls. simpl.
      rewrite List.filter_app. simpl. now rewrite app_nil_r.
    + rewrite Hf. reflexivity.
Qed.

Lemma fetch_annotation_again_uses_cache_witness :
  let call := fetch_annotation PyNone (PyStr "density") PyNone PyNone PyNone
                               PyNone PyNone PyNone true PyNone PyNone 1%Z in
  fetch_calls (log (snd (call ex_world))) = 2
  /\ exists r1 w2,
       call ex_world = (Ok r1, snd (call ex_world))
       /\ call (snd (call ex_world)) = (Ok r1, w2)
       /\ fetch_calls (log w2) = 2.
Proof.
  intros call.
  assert (Hn : fetch_calls (log (snd (call ex_world))) = 2)
    by (vm_compute; reflexivity).
  split; [exact Hn|].
  destruct (call ex_world) as [[r1|e] w1] eqn:E; simpl in *.
  2: { exfalso. assert (H : fst (call ex_world) = Raise e) by now rewrite E.
       vm_compute in H. discriminate H. }
  assert (Hw : w1 = snd (call ex_world)) by now rewrite E.
  assert (Hcache : forall dd dset p,
             resolved_data_dir PyNone w1 = Ok dd ->
             In dset (matched_records
                        (kwargs_of PyNone (PyStr "density") PyNone PyNone PyNone
                                   PyNone PyNone PyNone) PyNone w1) ->
             expected_path dd dset = Ok p ->
             str p ∈ files w1).
  { intros dd dset p Hdd Hd Hp. rewrite Hw in *.
    vm_compute in Hdd. injection Hdd as <-.
    vm_compute in Hd.
    destruct Hd as [<-|[<-|[]]]; vm_compute in Hp; injection Hp as <-;
      apply (bool_decide_unpack _); vm_compute; exact I. }
  destruct (fetch_annotation_again_uses_cache _ _ _ _ _ _ _ _ _ _ _ _ _ _ _ E Hcache)
    as (w2 & H2 & Hc & _).
  exists r1, w2. split; [reflexivity|]. split; [exact H2|].
  now rewrite Hc.
Defined.

End Fetch.

(** ** Describing annotations *)

Section Describe.

(** A request with a key the side-catalog does not hold issues the warning
    and then fails: [raise] is given the [None] that [warnings.warn]
    returns. *)
Lemma get_annotations_desc_unknown (annots : annots_arg) (w : World) :
  not_available annots w <> [] ->
  get_annotations_desc annots w
  = (Raise TypeError,
     with_log w (log w ++ [CallOpenInfo;
                           CallWarn (NotAvailable (not_available annots w))])).
Proof.
  intros Hne. unfold get_annotations_desc.
  unfold bind at 1. unfold emit at 1.
  unfold bind at 1. unfold reads at 1. simpl info_json.
  fold (annots_list annots). fold (not_available annots w).
  destruct (not_available annots w) as [|a l] eqn:E; [congruence|].
  simpl. unfold warnings_warn, py_raise, bind, emit, ret, raise. simpl.
  now rewrite <- app_assoc.
Qed.

(** A request of known keys only returns their rows, in the order asked,
    and warns of nothing. *)
Lemma get_annotations_desc_known (annots : annots_arg) (w : World) :
  not_available annots w = [] ->
  get_annotations_desc annots w
  = (Ok (loc (annots_list annots) (info_json w)),
     with_log w (log w ++ [CallOpenInfo])).
Proof.
  intros Hnil. unfold get_annotations_desc.
  unfold bind at 1. unfold emit at 1.
  unfold bind at 1. unfold reads at 1. simpl info_json.
  fold (annots_list annots). fold (not_available annots w).
  rewrite Hnil. simpl. unfold ret.
  assert (Hid : forall l : list key, List.filter (fun _ => true) l = l).
  { induction l as [|x l IH]; simpl; [reflexivity | now rewrite IH]. }
  now rewrite Hid.
Qed.

(** C8, at the input where the code leaves the claim: asked for a known and
    an unknown key, [get_annotations_desc] warns that the unknown one is not
    available and then raises [TypeError]; no description is returned, not
    even the one of the known key, which on its own is described. *)
Theorem get_annotations_desc_unknown_is_fatal :
  get_annotations_desc
    (AnnotList [["abc2020"; "density"; "fsaverage"; "10k"];
                ["nosuch2020"; "density"; "fsaverage"; "10k"]]) ex_world
  = (Raise TypeError,
     with_log ex_world
       [CallOpenInfo;
        CallWarn (NotAvailable [["nosuch2020"; "density"; "fsaverage"; "10k"]])])
  /\ get_annotations_desc
       (AnnotList [["abc2020"; "density"; "fsaverage"; "10k"]]) ex_world
     = (Ok [ex_row], with_log ex_world [CallOpenInfo]).
Proof.
  split.
  - rewrite get_annotations_desc_unknown; [reflexivity|].
    vm_compute. discriminate.
  - rewrite get_annotations_desc_known; reflexivity.
Qed.

End Describe.

(** * Further properties *)

(** ** The pattern: which names have a key *)

Section RegexComplete.

Local Notation "a +++ b" := (String.append a b)
  (at level 60, right associativity).
Local Arguments String.append : simpl nomatch.

Lemma lit_complete {A} (p s : string) (k : string -> option A) :
  Re.lit p (p +++ s) k = k s.
Proof.
  induction p as [|c p IH]; simpl; [reflexivity|].
  now rewrite Ascii.eqb_refl.
Qed.

Lemma rep_complete {A} cls (w s : string) (k : string -> option A) :
  forall lo hi,
    Re.all_in cls w = true ->
    lo <= String.length w ->
    (forall n, hi = Some n -> String.length w <= n) ->
    k s <> None ->
    Re.rep cls lo hi (w +++ s) k <> None.
Proof.
  induction w as [|c w IH]; intros lo hi Hall Hlo Hhi Hk.
  - simpl in Hlo. assert (lo = 0) as -> by lia. simpl.
    destruct s as [|d s]; simpl; [exact Hk|].
    destruct (cls d && Re.may_take hi); [|exact Hk].
    destruct (Re.rep cls 0 (Re.dec hi) s k); [discriminate | exact Hk].
  - simpl in Hall. apply andb_true_iff in Hall as [Hc Hall]. simpl.
    assert (Hm : Re.may_take hi = true).
    { destruct hi as [[|n]|]; try reflexivity.
      specialize (Hhi 0 eq_refl). simpl in Hhi. lia. }
    rewrite Hc, Hm. simpl.
    assert (Hrec : Re.rep cls (Nat.pred lo) (Re.dec hi) (w +++ s) k <> None).
    { apply IH; [exact Hall | simpl in Hlo; lia | | exact Hk].
      intros n Hn. destruct hi as [m|]; [|discriminate].
      injection Hn as <-. specialize (Hhi m eq_refl). simpl in Hhi. lia. }
    destruct (Re.rep cls (Nat.pred lo) (Re.dec hi) (w +++ s) k);
      [discriminate | contradiction].
Qed.

(** Completeness of the backtracking matcher: where a split of the input
    matches the pattern and lets the continuation go on, the matcher finds a
    match (of this split or of one it tries before). *)
Lemma bt_complete r w gs :
  Re.matches r w gs ->
  forall s caps k,
    k s (caps ++ gs) <> None -> Re.bt r (w +++ s) caps k <> None.
Proof.
  induction 1 as [p|cls lo hi w Hlo Hhi Hall|r w gs Hm IH|r1 r2 w gs Hm IH
                  |r1 r2 w gs Hm IH|r1 r2 w1 w2 gs1 gs2 Hm1 IH1 Hm2 IH2];
    intros s caps k Hk; simpl.
  - rewrite lit_complete. now rewrite app_nil_r in Hk.
  - apply rep_complete; auto. now rewrite app_nil_r in Hk.
  - apply IH. rewrite consumed_append. now rewrite <- app_assoc.
  - specialize (IH s caps k Hk).
    destruct (Re.bt r1 (w +++ s) caps k); [discriminate | contradiction].
  - destruct (Re.bt r1 (w +++ s) caps k); [discriminate|]. now apply IH.
  - rewrite append_assoc. apply IH1. apply IH2. now rewrite <- app_assoc.
Qed.

Lemma search_here r s : Re.match_at r s <> None -> Re.search r s <> None.
Proof.
  intros H. destruct s; simpl; destruct (Re.match_at r _);
    first [discriminate | contradiction].
Qed.

Lemma search_later r c s : Re.search r s <> None -> Re.search r (String c s) <> None.
Proof.
  intros H. simpl. destruct (Re.match_at r (String c s)); [discriminate | exact H].
Qed.

Lemma search_complete r pre w post gs :
  Re.matches r w gs -> Re.search r (pre +++ w +++ post) <> None.
Proof.
  intros Hm. induction pre as [|c pre IH]; simpl.
  - apply search_here. unfold Re.match_at.
    apply (bt_complete _ _ _ Hm). cbv beta. discriminate.
  - now apply search_later.
Qed.

(** A stretch of the spelled-out form matches [MATCH]. *)
Lemma MATCH_built g1 g2 g3 dr digits unit :
  (dr = "den" \/ dr = "res") ->
  (1 <= String.length g1 /\ Re.all_in Re.non_space g1 = true) ->
  (1 <= String.length g2 /\ Re.all_in Re.non_space g2 = true) ->
  (1 <= String.length g3 /\ Re.all_in Re.non_space g3 = true) ->
  (1 <= String.length digits /\ Re.all_in Re.digit digits = true) ->
  (1 <= String.length unit <= 2 /\ Re.all_in Re.k_bar_m unit = true) ->
  exists gs,
    Re.matches MATCH
      ("source-" +++ g1 +++ "_desc-" +++ g2 +++ "_space-" +++ g3 +++ "_"
       +++ dr +++ "-" +++ (digits +++ unit) +++ "_") gs.
Proof.
  intros Hdr [L1 A1] [L2 A2] [L3 A3] [Ld Ad] [[Lu Lu'] Au].
  assert (Hrep : forall cls w, 1 <= String.length w -> Re.all_in cls w = true ->
            Re.matches (Re.Rep cls 1 None) w []).
  { intros cls w Hl Ha. constructor; [exact Hl | discriminate | exact Ha]. }
  unfold MATCH. destruct Hdr as [-> | ->]; eexists.
  all: eapply Re.MCat; [apply Re.MLit|].
  all: eapply Re.MCat; [eapply Re.MGroup; now apply Hrep|].
  all: eapply Re.MCat; [apply Re.MLit|].
  all: eapply Re.MCat; [eapply Re.MGroup; now apply Hrep|].
  all: eapply Re.MCat; [apply Re.MLit|].
  all: eapply Re.MCat; [eapply Re.MGroup; now apply Hrep|].
  all: eapply Re.MCat; [apply Re.MLit|].
  1: eapply Re.MCat; [apply Re.MAltL; apply Re.MLit|].
  2: eapply Re.MCat; [apply Re.MAltR; apply Re.MLit|].
  all: eapply Re.MCat; [apply Re.MLit|].
  all: eapply Re.MCat; [|apply Re.MLit].
  all: eapply Re.MGroup; eapply Re.MCat; [now apply Hrep|].
  all: constructor; [exact Lu | intros n [= <-]; exact Lu' | exact Au].
Qed.

Lemma well_formed_holds fn :
  well_formed_name fn <-> exists gs, holds_match fn gs.
Proof.
  split.
  - intros (pre & g1 & g2 & g3 & dr & ds & u & post & -> & Hdr & H1 & H2 & H3 & Hd & Hu).
    destruct (MATCH_built g1 g2 g3 dr ds u Hdr H1 H2 H3 Hd Hu) as (gs & Hm).
    exists gs, pre. eexists. exists post. split; [|exact Hm].
    now rewrite !append_assoc.
  - intros (gs & pre & w & post & -> & Hm).
    apply MATCH_shape in Hm
      as (g1 & g2 & g3 & dr & ds & u & _ & -> & Hdr & H1 & H2 & H3 & Hd & Hu).
    exists pre, g1, g2, g3, dr, ds, u, post.
    split; [now rewrite !append_assoc | now repeat split].
Qed.

(** X1: the key of a file name.  When the pattern finds a match, the name
    holds a stretch [source-<g1>_desc-<g2>_space-<g3>_<den|res>-<g4>_] and the
    key is [(g1, g2, g3, g4)]: the first three components are non-empty and
    free of white space, the fourth is one or more digits followed by one or
    two characters of [k], [|], [m]. *)
Theorem key_of_name_shape (fn : string) (gs : list string) :
  Re.search MATCH fn = Some gs ->
  exists pre post g1 g2 g3 dr digits unit,
    gs = [g1; g2; g3; digits +++ unit]
    /\ fn = pre +++ "source-" +++ g1 +++ "_desc-" +++ g2 +++ "_space-" +++ g3
             +++ "_" +++ dr +++ "-" +++ (digits +++ unit) +++ "_" +++ post
    /\ (dr = "den" \/ dr = "res")
    /\ (1 <= String.length g1 /\ Re.all_in Re.non_space g1 = true)
    /\ (1 <= String.length g2 /\ Re.all_in Re.non_space g2 = true)
    /\ (1 <= String.length g3 /\ Re.all_in Re.non_space g3 = true)
    /\ (1 <= String.length digits /\ Re.all_in Re.digit digits = true)
    /\ (1 <= String.length unit <= 2 /\ Re.all_in Re.k_bar_m unit = true).
Proof.
  intros H. apply search_sound in H as (pre & w & post & -> & Hm).
  apply MATCH_shape in Hm
    as (g1 & g2 & g3 & dr & ds & u & -> & -> & Hdr & H1 & H2 & H3 & Hd & Hu).
  exists pre, post, g1, g2, g3, dr, ds, u.
  split; [reflexivity|]. split; [now rewrite !append_assoc|]. now repeat split.
Qed.

Lemma key_of_name_shape_witness :
  Re.search MATCH
    "source-abc2020_desc-density_space-fsaverage_den-10k_hemi-L_feature.func.gii"
    = Some ["abc2020"; "density"; "fsaverage"; "10k"]
  /\ exists pre post g1 g2 g3 dr digits unit,
       ["abc2020"; "density"; "fsaverage"; "10k"] = [g1; g2; g3; digits +++ unit]
       /\ "source-abc2020_desc-density_space-fsaverage_den-10k_hemi-L_feature.func.gii"
          = pre +++ "source-" +++ g1 +++ "_desc-" +++ g2 +++ "_space-" +++ g3
            +++ "_" +++ dr +++ "-" +++ (digits +++ unit) +++ "_" +++ post.
Proof.
  assert (H : Re.search MATCH
    "source-abc2020_desc-density_space-fsaverage_den-10k_hemi-L_feature.func.gii"
    = Some ["abc2020"; "density"; "fsaverage"; "10k"]) by (vm_compute; reflexivity).
  split; [exact H|].
  destruct (key_of_name_shape _ _ H)
    as (pre & post & g1 & g2 & g3 & dr & ds & u & E1 & E2 & _).
  exists pre, post, g1, g2, g3, dr, ds, u. split; [exact E1 | exact E2].
Defined.

Lemma has_key_well_formed (fn : string) :
  Re.search MATCH fn <> None -> well_formed_name fn.
Proof.
  intros H. apply well_formed_holds.
  destruct (Re.search MATCH fn) as [gs|] eqn:E; [|contradiction].
  exists gs. now apply search_MATCH_holds.
Qed.

Lemma well_formed_has_key (fn : string) :
  well_formed_name fn -> Re.search MATCH fn <> None.
Proof.
  intros H. apply well_formed_holds in H as (gs & pre & w & post & -> & Hm).
  now apply (search_complete _ _ _ _ gs).
Qed.

(** X2: the names that have a key are exactly the names that hold, anywhere,
    a stretch [source-<S>_desc-<D>_space-<P>_<den|res>-<digits><unit>_] with
    [S], [D], [P] non-empty and free of white space, at least one digit and a
    unit of one or two characters of [k], [|], [m]; the closing underscore is
    part of the pattern. *)
Theorem name_has_key_iff_well_formed (fn : string) :
  Re.search MATCH fn <> None <-> well_formed_name fn.
Proof.
  split.
  - intros H. now apply has_key_well_formed.
  - intros H. now apply well_formed_has_key.
Qed.

End RegexComplete.

(** ** The grouping engine: outcome, content and regrouping *)

Section GroupingMore.

Implicit Types (out acc : buckets) (k : key) (fn : string) (fnames : list string).

Lemma group_loop_Ok_Forall fnames out out' :
  group_loop fnames out = Ok out' ->
  Forall (fun fn => Re.search MATCH fn <> None) fnames.
Proof.
  revert out. induction fnames as [|fn rest IH]; intros out H; simpl in H.
  - constructor.
  - destruct (Re.search MATCH fn) as [k|] eqn:E; [|discriminate].
    constructor; [congruence | exact (IH _ H)].
Qed.

(** What a successful call has computed. *)
Lemma groupby_match_Ok_inv fnames return_single g :
  _groupby_match fnames return_single = Ok g ->
  exists out d,
    group_loop fnames [] = Ok out /\ groups_of fnames out
    /\ d = map (fun kv => (fst kv, shape (snd kv))) out
    /\ collapse_all out = Ok d
    /\ g = match d with
           | [(_, v)] => if return_single then Direct v else Mapping d
           | _ => Mapping d
           end.
Proof.
  unfold _groupby_match. intros H.
  destruct (group_loop fnames []) as [out|e] eqn:Hloop; [|discriminate].
  pose proof (group_loop_Ok_Forall _ _ _ Hloop) as Hall.
  destruct (group_loop_groups fnames [] [] Hall groups_of_nil) as (out' & H1 & Hg).
  simpl in Hg. rewrite Hloop in H1. injection H1 as <-.
  assert (Hne : forall k v, In (k, v) out -> v <> []).
  { intros k v Hin. now destruct (groups_of_In _ _ _ _ Hg Hin). }
  simpl in H. rewrite (collapse_all_shape _ Hne) in H. simpl in H.
  exists out, (map (fun kv => (fst kv, shape (snd kv))) out).
  split; [reflexivity|]. split; [exact Hg|]. split; [reflexivity|].
  split; [now apply collapse_all_shape|].
  destruct (map (fun kv => (fst kv, shape (snd kv))) out) as [|[k v] [|kv d']];
    destruct return_single; simpl in H; now injection H as <-.
Qed.

Lemma keyed_or_not fnames :
  Forall (fun fn => Re.search MATCH fn <> None) fnames
  \/ Exists (fun fn => Re.search MATCH fn = None) fnames.
Proof.
  induction fnames as [|fn rest [IH|IH]].
  - left. constructor.
  - destruct (Re.search MATCH fn) eqn:E.
    + left. constructor; [congruence | exact IH].
    + right. now left.
  - right. now right.
Qed.

(** X3: [_groupby_match] raises exactly when some name of the list has no
    key, and then it raises [AttributeError] whatever the flag; when every
    name is well formed it returns.  It raises nothing else: the two
    subscripts [v[0]] and [list(out.values())[0]] never fail. *)
Theorem groupby_match_raises_iff (fnames : list string) (return_single : bool) :
  (_groupby_match fnames return_single = Raise AttributeError
   <-> Exists (fun fn => ~ well_formed_name fn) fnames)
  /\ ((exists g, _groupby_match fnames return_single = Ok g)
      <-> Forall well_formed_name fnames).
Proof.
  destruct (keyed_or_not fnames) as [Hall|Hnone].
  - assert (Hwf : Forall well_formed_name fnames).
    { eapply Forall_impl; [exact Hall|].
      intros fn. apply has_key_well_formed. }
    destruct (group_loop_groups fnames [] [] Hall groups_of_nil) as (out & Hloop & Hg).
    simpl in Hg.
    assert (Hne : forall k v, In (k, v) out -> v <> []).
    { intros k v Hin. now destruct (groups_of_In _ _ _ _ Hg Hin). }
    assert (Hok : exists g, _groupby_match fnames return_single = Ok g).
    { unfold _groupby_match. rewrite Hloop. simpl.
      rewrite (collapse_all_shape _ Hne). simpl.
      destruct out as [|[k v] out']; simpl.
      - rewrite andb_false_r. eauto.
      - destruct (return_single && _); eauto. }
    split; split.
    + intros H. destruct Hok as (g & Hg'). congruence.
    + intros H. exfalso. apply Exists_exists in H as (fn & Hin & Hno).
      apply Hno. eapply Forall_forall in Hwf; eauto.
    + intros _. exact Hwf.
    + intros _. exact Hok.
  - assert (Hr : _groupby_match fnames return_single = Raise AttributeError).
    { unfold _groupby_match. now rewrite group_loop_raises. }
    assert (Hnwf : Exists (fun fn => ~ well_formed_name fn) fnames).
    { eapply Exists_impl; [exact Hnone|]. intros fn H Hw.
      apply well_formed_has_key in Hw. contradiction. }
    split; split.
    + intros _. exact Hnwf.
    + intros _. exact Hr.
    + intros (g & Hg). congruence.
    + intros Hwf. exfalso. apply Exists_exists in Hnwf as (fn & Hin & Hno).
      apply Hno. eapply Forall_forall in Hwf; eauto.
Qed.

Lemma bucket_append_names out k fn :
  concat (map snd (bucket_append out k fn)) ≡ₚ concat (map snd out) ++ [fn].
Proof.
  induction out as [|[k' v] out IH]; simpl; [reflexivity|].
  destruct (bool_decide (k = k')); simpl.
  - rewrite <- !app_assoc. apply Permutation_app_head.
    apply Permutation_app_comm.
  - rewrite IH. now rewrite app_assoc.
Qed.

Lemma group_loop_names fnames out out' :
  group_loop fnames out = Ok out' ->
  concat (map snd out') ≡ₚ concat (map snd out) ++ fnames.
Proof.
  revert out. induction fnames as [|fn rest IH]; intros out H; simpl in H.
  - injection H as <-. now rewrite app_nil_r.
  - destruct (Re.search MATCH fn) as [k|]; [|discriminate].
    rewrite (IH _ H), bucket_append_names. now rewrite <- app_assoc.
Qed.

Lemma unshape_shape (v : list string) : v <> [] -> unshape (shape v) = v.
Proof. destruct v as [|x [|y l]]; [congruence | reflexivity | reflexivity]. Qed.

Lemma flatten_shapes out :
  (forall k v, In (k, v) out -> v <> []) ->
  flatten (map (fun kv => (fst kv, shape (snd kv))) out) = concat (map snd out).
Proof.
  induction out as [|[k v] out IH]; intros H; simpl; [reflexivity|].
  unfold flatten in *. simpl.
  rewrite unshape_shape by (apply (H k); now left).
  rewrite IH by (intros k' v' Hin; apply (H k'); now right). reflexivity.
Qed.

(** The file names a result stands for are the buckets, one after the
    other. *)
Lemma names_of_result out (d : list (key * gval)) (return_single : bool) :
  (forall k v, In (k, v) out -> v <> []) ->
  d = map (fun kv => (fst kv, shape (snd kv))) out ->
  names_of (match d with
            | [(_, v)] => if return_single then Direct v else Mapping d
            | _ => Mapping d
            end) = concat (map snd out).
Proof.
  intros Hne ->. rewrite <- (flatten_shapes _ Hne).
  destruct (map _ out) as [|[k v] [|kv d']]; try reflexivity.
  destruct return_single; [|reflexivity].
  unfold flatten. simpl. now rewrite app_nil_r.
Qed.

(** X4: grouping loses no file name and invents or repeats none: the names
    in the result, all buckets together, are the names of the input, each as
    often as it was given. *)
Theorem groupby_match_keeps_names (fnames : list string) (return_single : bool)
    (g : grouped) :
  _groupby_match fnames return_single = Ok g -> names_of g ≡ₚ fnames.
Proof.
  intros H.
  apply groupby_match_Ok_inv in H as (out & d & Hloop & Hg & Hd & _ & ->).
  rewrite (names_of_result out d return_single); [|
    intros k v Hin; now destruct (groups_of_In _ _ _ _ Hg Hin) | exact Hd].
  now rewrite (group_loop_names _ _ _ Hloop).
Qed.

Lemma groupby_match_keeps_names_witness :
  exists g, _groupby_match ex_fnames true = Ok g /\ names_of g ≡ₚ ex_fnames.
Proof.
  destruct (_groupby_match ex_fnames true) as [g|e] eqn:E.
  - exists g. split; [reflexivity|].
    exact (groupby_match_keeps_names ex_fnames true g E).
  - exfalso. vm_compute in E. discriminate E.
Defined.

Lemma bucket_append_fresh acc k fn :
  ~ In k (map fst acc) -> bucket_append acc k fn = acc ++ [(k, [fn])].
Proof.
  induction acc as [|[k' v] acc IH]; simpl; intros H; [reflexivity|].
  rewrite bool_decide_eq_false_2 by (intros ->; apply H; now left).
  rewrite IH by (intros Hin; apply H; now right). reflexivity.
Qed.

Lemma bucket_append_last acc k (v0 : list string) fn :
  ~ In k (map fst acc) ->
  bucket_append (acc ++ [(k, v0)]) k fn = acc ++ [(k, v0 ++ [fn])].
Proof.
  induction acc as [|[k' v] acc IH]; simpl; intros H.
  - now rewrite bool_decide_eq_true_2.
  - rewrite bool_decide_eq_false_2 by (intros ->; apply H; now left).
    rewrite IH by (intros Hin; apply H; now right). reflexivity.
Qed.

(** Names of one key in a row fill one bucket. *)
Lemma fill_bucket acc k (v0 v rest : list string) :
  ~ In k (map fst acc) ->
  (forall fn, In fn v -> Re.search MATCH fn = Some k) ->
  group_loop (v ++ rest) (acc ++ [(k, v0)])
  = group_loop rest (acc ++ [(k, v0 ++ v)]).
Proof.
  intros Hk. revert v0. induction v as [|fn v IH]; intros v0 Hv; simpl.
  - now rewrite app_nil_r.
  - rewrite (Hv fn) by now left.
    rewrite bucket_append_last by exact Hk.
    rewrite IH by (intros fn' Hin; apply Hv; now right).
    now rewrite <- app_assoc.
Qed.

(** Grouping the buckets laid end to end gives the buckets back. *)
Lemma regroup out :
  forall acc,
    NoDup (map fst (acc ++ out)) ->
    (forall k v, In (k, v) out ->
       v <> [] /\ forall fn, In fn v -> Re.search MATCH fn = Some k) ->
    group_loop (concat (map snd out)) acc = Ok (acc ++ out).
Proof.
  induction out as [|[k v] out IH]; intros acc Hnd Hout; simpl.
  - now rewrite app_nil_r.
  - destruct (Hout k v (or_introl eq_refl)) as [Hne Hv].
    destruct v as [|fn v]; [congruence|]. simpl.
    rewrite (Hv fn) by now left.
    assert (Hk : ~ In k (map fst acc)).
    { rewrite map_app in Hnd. simpl in Hnd.
      apply NoDup_app in Hnd as (_ & Hdis & _).
      intros Hin. apply (Hdis k); [now apply list_elem_of_In | left]. }
    rewrite bucket_append_fresh by exact Hk.
    rewrite fill_bucket; [|exact Hk | intros fn' Hin; apply Hv; now right].
    simpl. rewrite IH.
    + now rewrite <- app_assoc.
    + now rewrite <- app_assoc.
    + intros k' v' Hin. apply Hout. now right.
Qed.

(** X5: grouping is idempotent on its own output: the names of a result,
    laid end to end in the order of the result and grouped again with the
    same flag, give the same result. *)
Theorem groupby_match_regroup (fnames : list string) (return_single : bool)
    (g : grouped) :
  _groupby_match fnames return_single = Ok g ->
  _groupby_match (names_of g) return_single = Ok g.
Proof.
  intros H.
  apply groupby_match_Ok_inv in H as (out & d & Hloop & Hg & Hd & Hc & ->).
  assert (Hne : forall k v, In (k, v) out -> v <> []).
  { intros k v Hin. now destruct (groups_of_In _ _ _ _ Hg Hin). }
  rewrite (names_of_result out d return_single Hne Hd).
  assert (Hre : group_loop (concat (map snd out)) [] = Ok out).
  { apply (regroup out []).
    - simpl. apply Hg.
    - intros k v Hin. destruct (groups_of_In _ _ _ _ Hg Hin) as [-> Hv].
      split; [exact Hv|]. intros fn Hfn. now apply members_In in Hfn. }
  unfold _groupby_match. rewrite Hre. simpl. rewrite Hc. simpl.
  destruct d as [|[k v] [|kv d']]; destruct return_single; reflexivity.
Qed.

Lemma groupby_match_regroup_witness :
  exists g,
    _groupby_match ex_fnames false = Ok g
    /\ names_of g <> ex_fnames
    /\ _groupby_match (names_of g) false = Ok g.
Proof.
  destruct (_groupby_match ex_fnames false) as [g|e] eqn:E.
  - exists g. split; [reflexivity|]. split.
    + vm_compute in E. injection E as <-. vm_compute. discriminate.
    + exact (groupby_match_regroup ex_fnames false g E).
  - exfalso. vm_compute in E. discriminate E.
Defined.

End GroupingMore.

(** ** The predicate matcher: selection, unknown keys, den and res *)

Section MatcherMore.

Implicit Types (dset kwargs : dict) (info : list dict) (key : string).

Local Notation "a +++ b" := (String.append a b)
  (at level 60, right associativity).
Local Arguments String.append : simpl nomatch.

Lemma filter_idem {A} (f : A -> bool) (l : list A) :
  List.filter f (List.filter f l) = List.filter f l.
Proof.
  induction l as [|a l IH]; simpl; [reflexivity|].
  destruct (f a) eqn:E; simpl; [now rewrite E, IH | exact IH].
Qed.

Lemma filter_sublist {A} (f : A -> bool) (l : list A) :
  sublist (List.filter f l) l.
Proof.
  induction l as [|a l IH]; simpl; [constructor|].
  destruct (f a); now constructor.
Qed.

(** X6: [_match_annot] selects: what it returns is a sub-sequence of the
    catalog in catalog order; every record is judged on its own, so matching
    a concatenation is matching its parts; and matching the result again with
    the same constraints changes nothing. *)
Theorem match_annot_selects info kwargs :
  sublist (_match_annot info kwargs) info
  /\ (forall info', _match_annot (info ++ info') kwargs
                    = _match_annot info kwargs ++ _match_annot info' kwargs)
  /\ _match_annot (_match_annot info kwargs) kwargs = _match_annot info kwargs.
Proof.
  rewrite !match_annot_filter. split; [apply filter_sublist|]. split.
  - intros info'. rewrite !match_annot_filter. apply List.filter_app.
  - apply filter_idem.
Qed.

Lemma normalize_tags_insert kwargs key (v : pyval) key' :
  key <> "tags" -> key <> key' ->
  get (normalize_tags (<[ key := v ]> kwargs)) key' = get (normalize_tags kwargs) key'.
Proof. apply get_normalize_insert. Qed.



Lemma in_strs_app_comm (x : pyval) (a b : list string) :
  in_strs x (a ++ b) = in_strs x (b ++ a).
Proof.
  destruct x as [|s|l]; simpl; try reflexivity.
  unfold mem. rewrite !existsb_app. apply orb_comm.
Qed.

(** X8: [den] and [res] are one pool: exchanging what is given under [den]
    with what is given under [res] selects the same records.  A value asked
    for as a density also selects the records that carry it as a
    resolution. *)
Theorem match_annot_den_res_exchange info kwargs :
  _match_annot info
    (<[ "den" := get kwargs "res" ]> (<[ "res" := get kwargs "den" ]> kwargs))
  = _match_annot info kwargs.
Proof.
  rewrite !match_annot_filter. apply filter_ext_all. intros dset.
  set (kw' := <[ "den" := get kwargs "res" ]> (<[ "res" := get kwargs "den" ]> kwargs)).
  assert (Hget : forall key', "den" <> key' -> "res" <> key' ->
            get (normalize_tags kw') key' = get (normalize_tags kwargs) key').
  { intros key' H1 H2. unfold kw'.
    rewrite normalize_tags_insert by (try discriminate; exact H1).
    apply normalize_tags_insert; [discriminate | exact H2]. }
  rewrite !includes_keys.
  rewrite !(key_ok_ext dset dset (normalize_tags kw') (normalize_tags kwargs));
    try reflexivity; try (apply Hget; discriminate).
  f_equal.
  rewrite !denres_of_values. unfold kw'.
  rewrite get_insert_eq, get_insert_ne, get_insert_eq by discriminate.
  unfold denres_ok. rewrite in_strs_app_comm.
  rewrite !length_app, (Nat.add_comm (List.length (values_of (get kwargs "res")))).
  reflexivity.
Qed.

(** Reads the keyword arguments of a goal about a one-key query. *)
Ltac read_query :=
  rewrite includes_split; unfold attrs_ok; rewrite fold_check_keys;
  rewrite denres_of_normalize, denres_of_values;
  unfold key_ok, check_key;
  repeat first
    [ rewrite get_normalize_tags
    | rewrite get_normalize_ne by discriminate
    | rewrite get_singleton_eq
    | rewrite get_singleton_ne by discriminate ].

(** X9: a single string other than "all" under [source], [desc], [space],
    [hemi] or [format] selects exactly the records whose value is that
    string; a record without a value is never selected. *)
Theorem string_constraint_is_equality info key (v : string) :
  In key scalar_keys -> v <> "all" ->
  _match_annot info {[ key := PyStr v ]}
  = List.filter (fun dset => py_eq (get dset key) (PyStr v)) info.
Proof.
  intros Hk Hv. rewrite match_annot_filter. apply filter_ext_all. intros dset.
  assert (Hall : String.eqb v "all" = false) by now apply String.eqb_neq.
  unfold scalar_keys in Hk. simpl in Hk.
  destruct Hk as [<-|[<-|[<-|[<-|[<-|[]]]]]];
    read_query; rewrite Hall; simpl;
    match goal with |- context [is_None ?c] => destruct c end;
    simpl; rewrite ?andb_true_r; reflexivity.
Qed.

Lemma string_constraint_is_equality_witness :
  In "space" scalar_keys /\ "MNI152" <> "all"
  /\ _match_annot [ex_abc2020; ex_vol] {[ "space" := PyStr "MNI152" ]}
     = List.filter (fun dset => py_eq (get dset "space") (PyStr "MNI152"))
                   [ex_abc2020; ex_vol].
Proof.
  assert (H1 : In "space" scalar_keys) by (simpl; tauto).
  assert (H2 : "MNI152" <> "all") by discriminate.
  split; [exact H1|]. split; [exact H2|].
  exact (string_constraint_is_equality _ "space" "MNI152" H1 H2).
Defined.

Lemma forallb_mem (vs ts : list string) :
  forallb (fun f => mem f ts) vs = true <-> forall v, In v vs -> In v ts.
Proof.
  rewrite forallb_forall. split; intros H v Hv; apply mem_In; now apply H.
Qed.

(** X10: a list under [tags] is a conjunction: a record with a tag list is
    selected exactly when every requested tag is among its tags (so the
    empty list selects every record that has tags); a record whose tags are
    [None] is never selected, not even by the empty list; and a bare string
    is the one-element list of it. *)
Theorem tags_constraint_is_conjunction info (vs : list string) :
  (forall dset ts, get dset "tags" = PyList ts ->
     (In dset (_match_annot info {[ "tags" := PyList vs ]})
      <-> In dset info /\ forall v, In v vs -> In v ts))
  /\ (forall dset, get dset "tags" = PyNone ->
        ~ In dset (_match_annot info {[ "tags" := PyList vs ]}))
  /\ (forall t, _match_annot info {[ "tags" := PyStr t ]}
                = _match_annot info {[ "tags" := PyList [t] ]}).
Proof.
  split; [|split].
  - intros dset ts Ht. rewrite tags_list_constraint, filter_In.
    unfold has_value. rewrite Ht. simpl. now rewrite forallb_mem.
  - intros dset Ht. rewrite tags_list_constraint, filter_In.
    unfold has_value. rewrite Ht. simpl. intros [_ H]. discriminate H.
  - intros t. rewrite !match_annot_filter. apply filter_ext_all. intros dset.
    unfold includes.
    assert (Hn : normalize_tags {[ "tags" := PyStr t ]}
                 = normalize_tags {[ "tags" := PyList [t] ]}).
    { unfold normalize_tags. rewrite !get_singleton_eq.
      apply insert_singleton_eq. }
    now rewrite Hn.
Qed.

Lemma tags_constraint_is_conjunction_witness :
  get ex_abc2020 "tags" = PyList ["PET"; "receptors"]
  /\ (In ex_abc2020 (_match_annot [ex_abc2020; ex_vol]
                       {[ "tags" := PyList ["receptors"; "PET"] ]})
      <-> In ex_abc2020 [ex_abc2020; ex_vol]
          /\ forall v, In v ["receptors"; "PET"] -> In v ["PET"; "receptors"]).
Proof.
  assert (H : get ex_abc2020 "tags" = PyList ["PET"; "receptors"]) by reflexivity.
  split; [exact H|].
  exact (proj1 (tags_constraint_is_conjunction [ex_abc2020; ex_vol]
                  ["receptors"; "PET"]) ex_abc2020 _ H).
Defined.

Lemma prefix_spec (f c : string) :
  String.prefix f c = true <-> exists b, c = f +++ b.
Proof.
  revert f. induction c as [|y c IH]; intros [|x f]; simpl.
  - split; [intros _; now exists "" | reflexivity].
  - split; [discriminate | intros (b & H); discriminate].
  - split; [intros _; now exists (String y c) | reflexivity].
  - destruct (ascii_dec x y) as [->|Hne].
    + rewrite IH. split; intros (b & H); exists b; [now rewrite H | now injection H].
    + split; [discriminate | intros (b & H); injection H; congruence].
Qed.

(** [f in c] on two strings: [f] occurs somewhere in [c]. *)
Lemma is_infix_spec (f c : string) :
  is_infix f c = true <-> exists a b, c = a +++ f +++ b.
Proof.
  induction c as [|y c IH].
  - change (is_infix f "") with (String.prefix f "" || false).
    rewrite orb_true_iff, prefix_spec. split.
    + intros [(b & H)|H]; [|discriminate]. now exists "", b.
    + intros (a & b & H). left. destruct a; [now exists b | discriminate].
  - change (is_infix f (String y c))
      with (String.prefix f (String y c) || is_infix f c).
    rewrite orb_true_iff, prefix_spec, IH. split.
    + intros [(b & H)|(a & b & H)]; [now exists "", b|].
      exists (String y a), b. simpl. now rewrite H.
    + intros (a & b & H). destruct a as [|x a]; [left; now exists b|].
      right. injection H as _ H. now exists a, b.
Qed.

(** X11: a list under [source], [desc], [space], [hemi] or [format] is a
    disjunction of containment tests: a record whose value is a string is
    selected exactly when some requested string occurs in that value as a
    substring (an equal string is the special case); the empty list selects
    nothing. *)
Theorem list_constraint_is_containment info key (vs : list string) :
  In key scalar_keys ->
  (forall dset c, get dset key = PyStr c ->
     (In dset (_match_annot info {[ key := PyList vs ]})
      <-> In dset info /\ exists v a b, In v vs /\ c = a +++ v +++ b))
  /\ _match_annot info {[ key := PyList [] ]} = [].
Proof.
  intros Hk. split.
  - intros dset c Hc. rewrite (scalar_list_constraint _ _ _ Hk), filter_In.
    unfold has_value. rewrite Hc. simpl. rewrite existsb_exists.
    split; intros [Hin H]; (split; [exact Hin|]).
    + destruct H as (v & Hv & Hi). apply is_infix_spec in Hi as (a & b & E).
      now exists v, a, b.
    + destruct H as (v & a & b & Hv & E). exists v. split; [exact Hv|].
      apply is_infix_spec. now exists a, b.
  - rewrite (scalar_list_constraint _ _ _ Hk). simpl.
    induction info as [|d l IH]; simpl; [reflexivity|].
    now rewrite andb_false_r.
Qed.

Lemma list_constraint_is_containment_witness :
  In "source" scalar_keys
  /\ get ex_abc2020 "source" = PyStr "abc2020"
  /\ (In ex_abc2020 (_match_annot [ex_abc2020; ex_vol]
                       {[ "source" := PyList ["nosuch"; "c20"] ]})
      <-> In ex_abc2020 [ex_abc2020; ex_vol]
          /\ exists v a b, In v ["nosuch"; "c20"] /\ "abc2020" = a +++ v +++ b).
Proof.
  assert (H1 : In "source" scalar_keys) by (simpl; tauto).
  assert (H2 : get ex_abc2020 "source" = PyStr "abc2020") by reflexivity.
  split; [exact H1|]. split; [exact H2|].
  exact (proj1 (list_constraint_is_containment [ex_abc2020; ex_vol] "source"
                  ["nosuch"; "c20"] H1) ex_abc2020 "abc2020" H2).
Defined.

End MatcherMore.

(** ** Listing what is available *)

Section Listing.

Lemma strings_upto_all (fnames : list pyval) (strs : list string) :
  strings_upto fnames = (strs, true) -> fnames = map PyStr strs.
Proof.
  revert strs. induction fnames as [|v rest IH]; intros strs H; simpl in H.
  - now injection H as <-.
  - destruct v as [|s|l]; try discriminate.
    destruct (strings_upto rest) as [l all_str]. injection H as <- ->.
    simpl. now rewrite (IH l eq_refl).
Qed.

Lemma groupby_match_values_Ok (fnames : list pyval) (return_single : bool) g :
  groupby_match_values fnames return_single = Ok g ->
  exists strs, fnames = map PyStr strs /\ _groupby_match strs return_single = Ok g.
Proof.
  unfold groupby_match_values.
  destruct (strings_upto fnames) as [strs [|]] eqn:E.
  - intros H. exists strs. split; [now apply strings_upto_all | exact H].
  - destruct (group_loop strs []); discriminate.
Qed.

Lemma groups_of_key_In fnames out k :
  groups_of fnames out ->
  (In k (map fst out) <-> exists fn, In fn fnames /\ Re.search MATCH fn = Some k).
Proof.
  intros Hg. split.
  - intros Hin. apply in_map_iff in Hin as ([k' v] & <- & Hin). simpl.
    destruct (groups_of_In _ _ _ _ Hg Hin) as [-> Hne].
    destruct (members k' fnames) as [|fn l] eqn:E; [congruence|].
    exists fn. apply members_In. rewrite E. now left.
  - intros (fn & Hin & Hk). destruct Hg as (_ & _ & Hlook).
    specialize (Hlook k).
    assert (Hm : In fn (members k fnames)) by now apply members_In.
    destruct (members k fnames) as [|x l]; [destruct Hm|].
    apply bucket_lookup_Some_In in Hlook.
    apply in_map_iff. now exists (k, x :: l).
Qed.

(** X12: [available_annotations] asks for the catalog once and touches
    nothing else; what it returns are the keys of the file names of the
    matched records: each key once, in the order in which the catalog first
    shows it, each with four components. *)
Theorem available_annotations_lists_keys
    source desc space den res hemi tags format return_restricted w ks w' :
  available_annotations source desc space den res hemi tags format
                        return_restricted w = (Ok ks, w') ->
  w' = with_log w (log w ++ [CallGetDatasetInfo "annotations" return_restricted])
  /\ NoDup ks
  /\ (forall k, In k ks -> List.length k = 4)
  /\ exists all_info fnames,
       dataset_info "annotations" return_restricted w = Ok all_info
       /\ fnames_of (_match_annot all_info
                       (kwargs_of source desc space den res hemi tags format))
          = Ok (map PyStr fnames)
       /\ ks = first_seen_keys fnames
       /\ forall k, In k ks <->
                    exists fn, In fn fnames /\ Re.search MATCH fn = Some k.
Proof.
  unfold available_annotations. intros H.
  apply bind_Ok_inv in H as (all_info & w1 & Hinfo & H).
  apply bind_Ok_inv in H as (fnames & w2 & Hfn & H).
  apply bind_Ok_inv in H as (g & w3 & Hg & H).
  apply lift_Ok_inv in Hfn as [Hfn ->], Hg as [Hg ->], H as [H ->].
  unfold get_dataset_info, bind, emit in Hinfo. simpl in Hinfo.
  destruct (dataset_info "annotations" return_restricted
              (with_log w (log w ++ [CallGetDatasetInfo "annotations" return_restricted])))
    as [i|e] eqn:Hd; [|discriminate].
  injection Hinfo as -> <-.
  apply groupby_match_values_Ok in Hg as (strs & -> & Hg).
  apply groupby_match_Ok_inv in Hg as (out & d & Hloop & Hgr & Hd' & _ & ->).
  assert (Hks : ks = map fst out).
  { assert (keys_of (Mapping d) = Ok ks).
    { destruct d as [|[k v] [|kv d']]; exact H. }
    simpl in H0. injection H0 as <-. rewrite Hd', map_map. reflexivity. }
  assert (Hin : forall k, In k ks <->
            exists fn, In fn strs /\ Re.search MATCH fn = Some k).
  { intros k. rewrite Hks. now apply groups_of_key_In. }
  split; [reflexivity|]. split; [rewrite Hks; apply Hgr|]. split.
  - intros k Hk. apply Hin in Hk as (fn & _ & Hk).
    exact (search_MATCH_length _ _ Hk).
  - exists all_info, strs. split; [exact Hd|]. split; [exact Hfn|].
    split; [|exact Hin]. rewrite Hks. apply Hgr.
Qed.

Lemma available_annotations_lists_keys_witness :
  exists ks w',
    available_annotations PyNone PyNone PyNone PyNone PyNone PyNone PyNone PyNone
                          false ex_world = (Ok ks, w')
    /\ ks = [["abc2020"; "density"; "fsaverage"; "10k"]]
    /\ NoDup ks.
Proof.
  destruct (available_annotations PyNone PyNone PyNone PyNone PyNone PyNone
              PyNone PyNone false ex_world) as [[ks|e] w'] eqn:E.
  - exists ks, w'. split; [reflexivity|]. split.
    + vm_compute in E. now injection E as <- _.
    + exact (proj1 (proj2 (available_annotations_lists_keys
               _ _ _ _ _ _ _ _ _ _ _ _ E))).
  - exfalso. vm_compute in E. discriminate E.
Defined.

Lemma collect_tags_elem info (acc tags : gset string) :
  collect_tags info acc = Ok tags ->
  forall t, t ∈ tags <-> t ∈ acc \/ exists dset, In dset info /\ In t (tags_in dset).
Proof.
  revert acc. induction info as [|dset rest IH]; intros acc H t; simpl in H.
  - injection H as <-. split; [now left|]. intros [H|(d & [] & _)]. exact H.
  - unfold getitem in H. unfold tags_in at 1.
    destruct (dset !! "tags") as [v|] eqn:E; [|discriminate]. simpl in H.
    assert (Hget : get dset "tags" = v) by (unfold get; now rewrite E).
    destruct v as [|s|l]; simpl in H.
    + rewrite (IH _ H t). split.
      * intros [Ha|(d & Hd & Ht)]; [now left|]. right. exists d. split; [now right|exact Ht].
      * intros [Ha|(d & [<-|Hd] & Ht)]; [now left| |].
        -- unfold tags_in in Ht. rewrite Hget in Ht. destruct Ht.
        -- right. now exists d.
    + rewrite (IH _ H t), elem_of_union, elem_of_list_to_set, list_elem_of_In. split.
      * intros [[Ha|Hc]|(d & Hd & Ht)]; [now left| |].
        -- right. exists dset. split; [now left|]. unfold tags_in. now rewrite Hget.
        -- right. exists d. split; [now right|exact Ht].
      * intros [Ha|(d & [<-|Hd] & Ht)]; [left; now left| |].
        -- left. right. unfold tags_in in Ht. now rewrite Hget in Ht.
        -- right. now exists d.
    + rewrite (IH _ H t), elem_of_union, elem_of_list_to_set, list_elem_of_In. split.
      * intros [[Ha|Hc]|(d & Hd & Ht)]; [now left| |].
        -- right. exists dset. split; [now left|]. unfold tags_in. now rewrite Hget.
        -- right. exists d. split; [now right|exact Ht].
      * intros [Ha|(d & [<-|Hd] & Ht)]; [left; now left| |].
        -- left. right. unfold tags_in in Ht. now rewrite Hget in Ht.
        -- right. now exists d.
Qed.

(** X13: [available_tags] asks for the catalog once and touches nothing
    else; it returns the tags of the records it sees (a string in place of a
    tag list counts character by character), each tag once, in ascending
    order of code points. *)
Theorem available_tags_sorted_distinct return_restricted w (ts : list string) w' :
  available_tags return_restricted w = (Ok ts, w') ->
  w' = with_log w (log w ++ [CallGetDatasetInfo "annotations" return_restricted])
  /\ StronglySorted String.le ts
  /\ NoDup ts
  /\ exists info,
       dataset_info "annotations" return_restricted w = Ok info
       /\ forall t, In t ts <-> exists dset, In dset info /\ In t (tags_in dset).
Proof.
  unfold available_tags. intros H.
  apply bind_Ok_inv in H as (info & w1 & Hinfo & H).
  apply bind_Ok_inv in H as (tags & w2 & Htags & H).
  apply lift_Ok_inv in Htags as [Htags ->].
  unfold ret in H. injection H as <- <-.
  unfold get_dataset_info, bind, emit in Hinfo. simpl in Hinfo.
  destruct (dataset_info "annotations" return_restricted
              (with_log w (log w ++ [CallGetDatasetInfo "annotations" return_restricted])))
    as [i|e] eqn:Hd; [|discriminate].
  injection Hinfo as -> <-.
  split; [reflexivity|]. split; [apply StronglySorted_merge_sort; apply _|].
  split.
  - unfold sorted. rewrite merge_sort_Permutation. apply NoDup_elements.
  - exists info. split; [exact Hd|]. intros t.
    rewrite <- list_elem_of_In. unfold sorted.
    rewrite merge_sort_Permutation, elem_of_elements.
    rewrite (collect_tags_elem _ _ _ Htags t). split.
    + intros [Hempty|H]; [|exact H]. now apply not_elem_of_empty in Hempty.
    + intros H. now right.
Qed.

Lemma available_tags_sorted_distinct_witness :
  exists ts w',
    available_tags true ex_world = (Ok ts, w')
    /\ ts = ["PET"; "receptors"]
    /\ StronglySorted String.le ts.
Proof.
  destruct (available_tags true ex_world) as [[ts|e] w'] eqn:E.
  - exists ts, w'. split; [reflexivity|]. split.
    + vm_compute in E. now injection E as <- _.
    + exact (proj1 (proj2 (available_tags_sorted_distinct _ _ _ _ E))).
  - exfalso. vm_compute in E. discriminate E.
Defined.

End Listing.

(** ** Fetching and describing: what a call returns *)

Section FetchMore.







End FetchMore.
